(** * Session lifecycle and reconnection of the OPC-UA client

    A shallow embedding of [lib/client/opcua_client.js]: endpoint
    resolution, CreateSession / ActivateSession / CloseSession, identity
    token derivation and the reactivation of sessions after a reconnection.

    JavaScript objects with identity (clients, sessions) live in a store and
    are referred to by their index; the asynchronous exchanges with the
    server are answered by an environment record, so every statement holds
    for every server behaviour. *)

From Stdlib Require Import ZArith NArith.
From Stdlib.Strings Require Import Byte.
From stdpp Require Import base decidable option list strings pretty.


(** ** JavaScript values and buffers *)

(** A node [Buffer]. *)
Definition Buffer := list byte.

(** The values a caller can put in an option or an identity field. *)
Inductive JsValue :=
| Undefined
| Null
| JsBool (b : bool)
| JsString (s : string).

(** JavaScript truthiness: [undefined], [null], [false] and the empty string
    are falsy. *)
Definition truthy (v : JsValue) : bool :=
  match v with
  | Undefined | Null => false
  | JsBool b => b
  | JsString s => negb (String.eqb s "")
  end.

(** A property that holds an object (here a [Buffer]) or [null]/[undefined]:
    an object is always truthy, whatever its length. *)
Definition present {A} (o : option A) : bool :=
  match o with Some _ => true | None => false end.

(** ** validateServerNonce *)

(** [(serverNonce && serverNonce.length < 32) ? false : true] *)
Definition validateServerNonce (serverNonce : option Buffer) : bool :=
  if present serverNonce && (length (default [] serverNonce) <? 32)%nat
  then false else true.

(** ** Enumerations of the protocol *)

Module MessageSecurityMode.
Inductive t := INVALID | NONE | SIGN | SIGNANDENCRYPT.
End MessageSecurityMode.

Module SecurityPolicy.
(** [Invalid] and [None] are the two members the client names; every
    other member of the enumeration is identified by its key. *)
Inductive t := Invalid | None | Member (key : string).
End SecurityPolicy.

Module UserIdentityTokenType.
Inductive t := ANONYMOUS | USERNAME | CERTIFICATE | ISSUEDTOKEN.
End UserIdentityTokenType.

Module StatusCodes.
(** [Good] and [BadTooManySessions] are the two codes the client tests
    for; [Bad name] is any other code, with its printed name. *)
Inductive t := Good | BadTooManySessions | Bad (name : string).
End StatusCodes.

#[global] Instance MessageSecurityMode_eq_dec : EqDecision MessageSecurityMode.t.
Proof. solve_decision. Defined.
#[global] Instance SecurityPolicy_eq_dec : EqDecision SecurityPolicy.t.
Proof. solve_decision. Defined.
#[global] Instance UserIdentityTokenType_eq_dec : EqDecision UserIdentityTokenType.t.
Proof. solve_decision. Defined.
#[global] Instance StatusCodes_eq_dec : EqDecision StatusCodes.t.
Proof. solve_decision. Defined.

(** ** Errors *)

(** One constructor per [new Error(...)], failed [assert] or exception of
    the client; [ExternalError] is an error handed over by a collaborator
    (transport, publish engine, certificate parser). *)
Inductive Error :=
| EndPointMustExist (endpoint_url : string)
    (* " End point must exist " + endpoint_url *)
| TooManySessions (serviceResult : StatusCodes.t)
    (* "Too Many Sessions : " + serviceResult *)
| InvalidServerNonce
    (* "invalid server Nonce" *)
| SessionCreationRejected (serviceResult : StatusCodes.t)
    (* "??? " + serviceResult *)
| CannotFindAnonymousPolicy
    (* "Cannot find ANONYMOUS user token policy in end point description" *)
| CannotFindUserNamePolicy
    (* "Cannot find USERNAME user token policy in end point description" *)
| UnsupportedSecurityPolicy
    (* " Unsupported security Policy" *)
| InvalidUserIdentityToken
    (* "CLIENT: Invalid userIdentityToken" *)
| ActivationRejected (serviceResult : StatusCodes.t)
    (* serviceResult.toString() *)
| NoChannel
    (* "no channel"; not raised by a connected client *)
| AssertionError (expr : string)
| TypeError (msg : string)
| ExternalError (msg : string).

#[global] Instance Error_eq_dec : EqDecision Error.
Proof. solve_decision. Defined.

(** The error taxonomy of the design (section 7). *)
Inductive ErrorKind :=
| KEndpointMismatch
| KTooManySessions
| KSessionCreationRejected (resultCode : StatusCodes.t)
| KInvalidServerNonce
| KInvalidIdentityInfo
| KNoMatchingTokenPolicy
| KUnsupportedSecurityPolicy
| KActivationRejected (resultCode : StatusCodes.t)
| KNoChannel
| KOther.

Definition different_endpoint : string :=
  "cannot reactivateSession on a different endpoint".

Definition taxonomy (e : Error) : ErrorKind :=
  match e with
  | EndPointMustExist _ => KEndpointMismatch
  | TooManySessions _ => KTooManySessions
  | InvalidServerNonce => KInvalidServerNonce
  | SessionCreationRejected sc => KSessionCreationRejected sc
  | CannotFindAnonymousPolicy | CannotFindUserNamePolicy => KNoMatchingTokenPolicy
  | UnsupportedSecurityPolicy => KUnsupportedSecurityPolicy
  | InvalidUserIdentityToken => KInvalidIdentityInfo
  | ActivationRejected sc => KActivationRejected sc
  | NoChannel => KNoChannel
  | AssertionError expr =>
      if String.eqb expr different_endpoint then KEndpointMismatch else KOther
  | TypeError _ | ExternalError _ => KOther
  end.

(** How an asynchronous method ends: it calls [callback(err, result)], or an
    exception leaves it before any callback. *)
Inductive Completion (A : Type) :=
| Callback (err : option Error) (result : option A)
| Thrown (err : Error).
Arguments Callback {A} err result.
Arguments Thrown {A} err.

(** The answer of [performMessageTransaction]: [err] set, or a response with
    its [responseHeader.serviceResult]. *)
Inductive Reply (R : Type) :=
| TransportError (err : Error)
| Response (serviceResult : StatusCodes.t) (response : R).
Arguments TransportError {R} err.
Arguments Response {R} serviceResult response.

(** ** Endpoint descriptions *)

Module UserTokenPolicy.
Record t := mk {
  policyId : string;
  tokenType : UserIdentityTokenType.t;
  securityPolicyUri : option string
}.
End UserTokenPolicy.

Module EndpointDescription.
Record t := mk {
  endpointUrl : string;
  securityMode : MessageSecurityMode.t;
  securityPolicyUri : string;
  userIdentityTokens : list UserTokenPolicy.t;
  server_applicationUri : string   (* endpoint.server.applicationUri *)
}.
End EndpointDescription.

(** ** Requests and responses *)

Module CreateSessionRequest.
Record t := mk {
  applicationUri : string;        (* clientDescription.applicationUri *)
  applicationName : string;       (* clientDescription.applicationName.text *)
  serverUri : string;
  endpointUrl : string;
  sessionName : string;
  clientNonce : Buffer;
  clientCertificate : option Buffer;
  requestedSessionTimeout : N;
  maxResponseMessageSize : N
}.
(** The request is built from the properties above only; it is given no
    [serverNonce] (the server nonce travels in the response), so reading
    [request.serverNonce] yields [undefined]. *)
Definition serverNonce (request : t) : option Buffer := Datatypes.None.
End CreateSessionRequest.

Module CreateSessionResponse.
Record t := mk {
  sessionId : string;
  authenticationToken : string;
  revisedSessionTimeout : N;
  serverNonce : option Buffer;
  serverCertificate : option Buffer;
  serverSignature : option Buffer;
  serverEndpoints : list EndpointDescription.t
}.
End CreateSessionResponse.

Inductive UserIdentityToken :=
| AnonymousIdentityToken (policyId : string)
| UserNameIdentityToken (userName : JsValue) (password : Buffer)
    (encryptionAlgorithm : string) (policyId : string).

Module ActivateSessionRequest.
Record t := mk {
  clientSignature : Buffer;
  clientSoftwareCertificates : list Buffer;
  localeIds : list string;
  userIdentityToken : UserIdentityToken;
  userTokenSignature : option Buffer * option Buffer  (* algorithm, signature *)
}.
End ActivateSessionRequest.

Module ActivateSessionResponse.
Record t := mk { serverNonce : option Buffer }.
End ActivateSessionResponse.

Module CloseSessionRequest.
Record t := mk { deleteSubscriptions : bool }.
End CloseSessionRequest.

(** ** Clients, sessions and the store *)

Module UserIdentityInfo.
(** [{}] is [mk Undefined Undefined]. *)
Record t := mk { userName : JsValue; password : JsValue }.
End UserIdentityInfo.

Module SecureChannel.
Record t := mk {
  endpoint_url : string;
  securityMode : MessageSecurityMode.t;
  securityPolicy : option SecurityPolicy.t;
  messageBuilder_securityPolicy : SecurityPolicy.t
}.
End SecureChannel.

Module ClientSession.
Record t := mk {
  _client : nat;                      (* the owning client *)
  name : string;
  sessionId : string;
  authenticationToken : string;
  timeout : N;
  serverNonce : option Buffer;
  serverCertificate : option Buffer;
  serverSignature : option Buffer;
  serverEndpoints : list EndpointDescription.t
}.

(** Assignments [session.field = v]. *)
Definition set__client v (s : t) : t :=
  mk v (name s) (sessionId s) (authenticationToken s) (timeout s) (serverNonce s) (serverCertificate s) (serverSignature s) (serverEndpoints s).
Definition set_serverNonce v (s : t) : t :=
  mk (_client s) (name s) (sessionId s) (authenticationToken s) (timeout s) v (serverCertificate s) (serverSignature s) (serverEndpoints s).
End ClientSession.

(** The constructor's [options]. *)
Module Options.
Record t := mk {
  endpoint_must_exist : JsValue;
  requestedSessionTimeout : option N;
  applicationName : option string;
  securityMode : option MessageSecurityMode.t;
  securityPolicy : option SecurityPolicy.t
}.
(** [{}] *)
Definition empty : t := mk Undefined None None None None.
End Options.

Module OPCUAClient.
(** The client is modelled connected: [_secureChannel] is the open
    channel that [_createSession] and [reactivateSession] assert and that
    [_activateSession] and [_closeSession] test for; what they do without a
    channel is not modelled. *)
Record t := mk {
  endpoint_must_exist : JsValue;
  requestedSessionTimeout : N;
  applicationName : string;
  ___sessionName_counter : option N;
  securityMode : MessageSecurityMode.t;
  securityPolicy : option SecurityPolicy.t;
  endpoint : option EndpointDescription.t;
  endpointUrl : option string;
  serverUri : option string;
  endpoint_url : option string;
  clientNonce : option Buffer;
  userIdentityInfo : option UserIdentityInfo.t;
  _secureChannel : SecureChannel.t;
  _server_endpoints : list EndpointDescription.t;
  _sessions : list nat
}.

(** Assignments [this.field = v]. *)
Definition set_endpoint_must_exist v (c : t) : t :=
  mk v (requestedSessionTimeout c) (applicationName c) (___sessionName_counter c) (securityMode c) (securityPolicy c) (endpoint c) (endpointUrl c) (serverUri c) (endpoint_url c) (clientNonce c) (userIdentityInfo c) (_secureChannel c) (_server_endpoints c) (_sessions c).
Definition set_requestedSessionTimeout v (c : t) : t :=
  mk (endpoint_must_exist c) v (applicationName c) (___sessionName_counter c) (securityMode c) (securityPolicy c) (endpoint c) (endpointUrl c) (serverUri c) (endpoint_url c) (clientNonce c) (userIdentityInfo c) (_secureChannel c) (_server_endpoints c) (_sessions c).
Definition set_applicationName v (c : t) : t :=
  mk (endpoint_must_exist c) (requestedSessionTimeout c) v (___sessionName_counter c) (securityMode c) (securityPolicy c) (endpoint c) (endpointUrl c) (serverUri c) (endpoint_url c) (clientNonce c) (userIdentityInfo c) (_secureChannel c) (_server_endpoints c) (_sessions c).
Definition set____sessionName_counter v (c : t) : t :=
  mk (endpoint_must_exist c) (requestedSessionTimeout c) (applicationName c) v (securityMode c) (securityPolicy c) (endpoint c) (endpointUrl c) (serverUri c) (endpoint_url c) (clientNonce c) (userIdentityInfo c) (_secureChannel c) (_server_endpoints c) (_sessions c).
Definition set_securityPolicy v (c : t) : t :=
  mk (endpoint_must_exist c) (requestedSessionTimeout c) (applicationName c) (___sessionName_counter c) (securityMode c) v (endpoint c) (endpointUrl c) (serverUri c) (endpoint_url c) (clientNonce c) (userIdentityInfo c) (_secureChannel c) (_server_endpoints c) (_sessions c).
Definition set_endpoint v (c : t) : t :=
  mk (endpoint_must_exist c) (requestedSessionTimeout c) (applicationName c) (___sessionName_counter c) (securityMode c) (securityPolicy c) v (endpointUrl c) (serverUri c) (endpoint_url c) (clientNonce c) (userIdentityInfo c) (_secureChannel c) (_server_endpoints c) (_sessions c).
Definition set_serverUri v (c : t) : t :=
  mk (endpoint_must_exist c) (requestedSessionTimeout c) (applicationName c) (___sessionName_counter c) (securityMode c) (securityPolicy c) (endpoint c) (endpointUrl c) v (endpoint_url c) (clientNonce c) (userIdentityInfo c) (_secureChannel c) (_server_endpoints c) (_sessions c).
Definition set_endpoint_url v (c : t) : t :=
  mk (endpoint_must_exist c) (requestedSessionTimeout c) (applicationName c) (___sessionName_counter c) (securityMode c) (securityPolicy c) (endpoint c) (endpointUrl c) (serverUri c) v (clientNonce c) (userIdentityInfo c) (_secureChannel c) (_server_endpoints c) (_sessions c).
Definition set_clientNonce v (c : t) : t :=
  mk (endpoint_must_exist c) (requestedSessionTimeout c) (applicationName c) (___sessionName_counter c) (securityMode c) (securityPolicy c) (endpoint c) (endpointUrl c) (serverUri c) (endpoint_url c) v (userIdentityInfo c) (_secureChannel c) (_server_endpoints c) (_sessions c).
Definition set_userIdentityInfo v (c : t) : t :=
  mk (endpoint_must_exist c) (requestedSessionTimeout c) (applicationName c) (___sessionName_counter c) (securityMode c) (securityPolicy c) (endpoint c) (endpointUrl c) (serverUri c) (endpoint_url c) (clientNonce c) v (_secureChannel c) (_server_endpoints c) (_sessions c).
Definition set__server_endpoints v (c : t) : t :=
  mk (endpoint_must_exist c) (requestedSessionTimeout c) (applicationName c) (___sessionName_counter c) (securityMode c) (securityPolicy c) (endpoint c) (endpointUrl c) (serverUri c) (endpoint_url c) (clientNonce c) (userIdentityInfo c) (_secureChannel c) v (_sessions c).
Definition set__sessions v (c : t) : t :=
  mk (endpoint_must_exist c) (requestedSessionTimeout c) (applicationName c) (___sessionName_counter c) (securityMode c) (securityPolicy c) (endpoint c) (endpointUrl c) (serverUri c) (endpoint_url c) (clientNonce c) (userIdentityInfo c) (_secureChannel c) (_server_endpoints c) v.
End OPCUAClient.

Module CryptoFactory.
Record t := mk {
  asymmetricEncryptionAlgorithm : string;
  asymmetricEncrypt : Buffer -> Buffer -> Buffer   (* block, public key *)
}.
End CryptoFactory.

(** The collaborators of the client: the security-policy registry, the
    certificate store, the random source, the server behind the transport
    and the publish engine. *)
Record Env := {
  SecurityPolicy_value : SecurityPolicy.t -> string;
  fromURI : option string -> SecurityPolicy.t;
  getCryptoFactory : SecurityPolicy.t -> option CryptoFactory.t;
  computeSignature :
    option Buffer -> option Buffer -> Buffer -> SecurityPolicy.t -> Buffer;
  extractPublicKeyFromCertificateSync : Buffer -> Error + Buffer;
  getCertificate : nat -> option Buffer;
  getPrivateKey : nat -> Buffer;
  subjectAltName_uniformResourceIdentifier : Buffer -> string;
  get_fully_qualified_domain_name : string;
  makeApplicationUrn : string -> string -> string;
  randomBytes : nat -> Buffer;
  createSession_transaction :
    CreateSessionRequest.t -> Reply CreateSessionResponse.t;
  activateSession_transaction :
    nat -> ActivateSessionRequest.t -> Reply ActivateSessionResponse.t;
  closeSession_transaction : nat -> CloseSessionRequest.t -> Reply unit;
  republish : nat -> option Error;
  base_on_connection_reestablished : option Error
}.

(** The store: clients and sessions by index, and the sessions for which a
    republish was requested from the publish engine, oldest first. *)
Record State := mkState {
  clients : list OPCUAClient.t;
  sessions : list ClientSession.t;
  republish_log : list nat
}.

Definition set_client (i : nat) (c : OPCUAClient.t) (st : State) : State :=
  mkState (<[i := c]> (clients st)) (sessions st) (republish_log st).

Definition set_session (i : nat) (s : ClientSession.t) (st : State) : State :=
  mkState (clients st) (<[i := s]> (sessions st)) (republish_log st).

(** [new ClientSession(client)]: a fresh object at the next free index. *)
Definition new_session (s : ClientSession.t) (st : State) : nat * State :=
  (length (sessions st),
   mkState (clients st) (sessions st ++ [s]) (republish_log st)).

(** A reference that points outside the store; no JavaScript reference
    does. *)
Definition dangling : Error := TypeError "dangling reference".

(** ** The constructor *)

(** Modelled from the spec: the base class [OPCUAClientBase]
    ([lib/client/client_base]) is not part of the sources; its constructor
    is taken to start with no session, to keep the security mode ([NONE]
    when unspecified, section 4.1) and the security policy of the options,
    and to know, once connected, its channel, the URL it connected to and
    the endpoints the server published. *)
Definition OPCUAClientBase_apply (options : Options.t)
    (channel : SecureChannel.t) (server_endpoints : list EndpointDescription.t)
    : OPCUAClient.t :=
  {| OPCUAClient.endpoint_must_exist := Undefined;
     OPCUAClient.requestedSessionTimeout := 0;
     OPCUAClient.applicationName := "";
     OPCUAClient.___sessionName_counter := None;
     OPCUAClient.securityMode :=
       default MessageSecurityMode.NONE (Options.securityMode options);
     OPCUAClient.securityPolicy := Options.securityPolicy options;
     OPCUAClient.endpoint := None;
     OPCUAClient.endpointUrl := Some (SecureChannel.endpoint_url channel);
     OPCUAClient.serverUri := None;
     OPCUAClient.endpoint_url := None;
     OPCUAClient.clientNonce := None;
     OPCUAClient.userIdentityInfo := None;
     OPCUAClient._secureChannel := channel;
     OPCUAClient._server_endpoints := server_endpoints;
     OPCUAClient._sessions := [] |}.

(** [function OPCUAClient(options)] *)
Definition OPCUAClient_new (options : Options.t)
    (channel : SecureChannel.t) (server_endpoints : list EndpointDescription.t)
    : OPCUAClient.t :=
  let this := OPCUAClientBase_apply options channel server_endpoints in
  let this :=
    OPCUAClient.set_endpoint_must_exist
      (match Options.endpoint_must_exist options with
       | Null => JsBool true                    (* === null *)
       | v => v
       end) this in
  let this :=
    OPCUAClient.set_requestedSessionTimeout
      (match Options.requestedSessionTimeout options with
       | Some n => if (n =? 0)%N then 20000%N else n
       | None => 20000%N
       end) this in
  OPCUAClient.set_applicationName
    (match Options.applicationName options with
     | Some s => if String.eqb s "" then "NodeOPCUA-Client" else s
     | None => "NodeOPCUA-Client"
     end) this.

(** ** Exceptions of synchronous code *)

(** A synchronous function returns [inr v] or throws [inl err]. *)
#[global] Instance throw_bind : MBind (sum Error) :=
  λ A B f x, match x with inl e => inl e | inr a => f a end.
#[global] Instance throw_ret : MRet (sum Error) := λ A a, inr a.
#[global] Instance throw_fmap : FMap (sum Error) :=
  λ A B f x, match x with inl e => inl e | inr a => inr (f a) end.

(** [assert(cond)] *)
Definition assert (cond : bool) (expr : string) : Error + unit :=
  if cond then inr () else inl (AssertionError expr).

(** [assert(o)] / [assert(o instanceof C)] on a property that holds an
    object or nothing. *)
Definition assert_some {A} (o : option A) (expr : string) : Error + A :=
  match o with Some a => inr a | None => inl (AssertionError expr) end.

(** ** Buffers *)

Definition byte_of_N (n : N) : byte := default x00 (Byte.of_N n).

(** [buf.writeUInt32LE(value, 0)] on [new Buffer(4)]: range-checked. *)
Definition writeUInt32LE (value : N) : Error + Buffer :=
  if (value <=? 0xffffffff)%N then
    inr [ byte_of_N (value mod 256);
          byte_of_N (value / 256 mod 256);
          byte_of_N (value / 65536 mod 256);
          byte_of_N (value / 16777216 mod 256) ]
  else inl (TypeError "value is out of bounds").

(** [buf.readUInt32LE(0)] on a buffer of four bytes. *)
Definition readUInt32LE (buf : Buffer) : option N :=
  match buf with
  | [b0; b1; b2; b3] =>
      Some (Byte.to_N b0 + 256 * Byte.to_N b1 + 65536 * Byte.to_N b2
            + 16777216 * Byte.to_N b3)%N
  | _ => None
  end.

(** [new Buffer(password, "utf-8")]: a string is held by its UTF-8 bytes;
    [null] is refused by the constructor. *)
Definition new_Buffer_utf8 (v : JsValue) : Error + Buffer :=
  match v with
  | JsString s => inr (String.list_byte_of_string s)
  | _ => inl (TypeError "must start with number, buffer, array or string")
  end.

Section Client.

Context (env : Env).

(** ** Session names and application URI *)

Definition _nextSessionName (this : OPCUAClient.t) : string * OPCUAClient.t :=
  let counter :=
    match OPCUAClient.___sessionName_counter this with
    | Some n => n                                  (* !0 resets to 0 *)
    | None => 0%N
    end in
  let counter := (counter + 1)%N in
  ("Session" +:+ pretty counter,
   OPCUAClient.set____sessionName_counter (Some counter) this).

Definition _getApplicationUri (self : nat) (this : OPCUAClient.t) : string :=
  match getCertificate env self with
  | Some certificate => subjectAltName_uniformResourceIdentifier env certificate
  | None =>
      makeApplicationUrn env (get_fully_qualified_domain_name env)
        (OPCUAClient.applicationName this)
  end.

(** ** Endpoint resolution *)

Definition matches_security (securityMode : MessageSecurityMode.t)
    (securityPolicy : SecurityPolicy.t) (endpoint : EndpointDescription.t) : bool :=
  bool_decide (EndpointDescription.securityMode endpoint = securityMode)
  && bool_decide (EndpointDescription.securityPolicyUri endpoint
                  = SecurityPolicy_value env securityPolicy).

(** Modelled from the spec: [findEndpoint] belongs to the base class, which
    is not part of the sources. It is the endpoint found among those
    published for the URL with exactly the requested mode and policy
    (section 4.1). *)
Definition findEndpoint (this : OPCUAClient.t) (endpointUrl : string)
    (securityMode : MessageSecurityMode.t) (securityPolicy : SecurityPolicy.t)
    : option EndpointDescription.t :=
  List.find
    (λ endpoint,
       bool_decide (EndpointDescription.endpointUrl endpoint = endpointUrl)
       && matches_security securityMode securityPolicy endpoint)
    (OPCUAClient._server_endpoints this).

(** Modelled from the spec: [findEndpointForSecurity] belongs to the base
    class too. It is the first endpoint matching mode and policy regardless
    of URL (section 4.1). *)
Definition findEndpointForSecurity (this : OPCUAClient.t)
    (securityMode : MessageSecurityMode.t) (securityPolicy : SecurityPolicy.t)
    : option EndpointDescription.t :=
  List.find (matches_security securityMode securityPolicy)
    (OPCUAClient._server_endpoints this).

Definition __resolveEndPoint (this : OPCUAClient.t) : bool * OPCUAClient.t :=
  let securityPolicy :=
    default SecurityPolicy.None (OPCUAClient.securityPolicy this) in
  let this := OPCUAClient.set_securityPolicy (Some securityPolicy) this in
  let endpoint :=
    findEndpoint this
      (SecureChannel.endpoint_url (OPCUAClient._secureChannel this))
      (OPCUAClient.securityMode this) securityPolicy in
  let this := OPCUAClient.set_endpoint endpoint this in
  match OPCUAClient.endpoint this with
  | Some _ => (true, this)
  | None =>
      if truthy (OPCUAClient.endpoint_must_exist this) then (false, this)
      else
        match findEndpointForSecurity this (OPCUAClient.securityMode this)
                securityPolicy with
        | None => (false, this)
        | Some endpoint => (true, OPCUAClient.set_endpoint (Some endpoint) this)
        end
  end.

(** ** CreateSession *)

Definition _createSession (self : nat) (st : State) : State * Completion nat :=
  match clients st !! self with
  | None => (st, Thrown dangling)
  | Some this =>
    let channel := OPCUAClient._secureChannel this in
    let '(resolved, this) := __resolveEndPoint this in
    match (if resolved then OPCUAClient.endpoint this else None) with
    | None =>
        (set_client self this st,
         Callback (Some (EndPointMustExist (SecureChannel.endpoint_url channel))) None)
    | Some endpoint =>
      let serverUri := EndpointDescription.server_applicationUri endpoint in
      let this := OPCUAClient.set_serverUri (Some serverUri) this in
      let endpoint_url := SecureChannel.endpoint_url channel in
      let this := OPCUAClient.set_endpoint_url (Some endpoint_url) this in
      let applicationUri := _getApplicationUri self this in
      if String.eqb serverUri "" then
        (set_client self this st, Thrown (AssertionError "this.serverUri"))
      else if String.eqb endpoint_url "" then
        (set_client self this st, Thrown (AssertionError "this.endpoint_url"))
      else
      let clientNonce := randomBytes env 32 in
      let this := OPCUAClient.set_clientNonce (Some clientNonce) this in
      let '(sessionName, this) := _nextSessionName this in
      let request :=
        {| CreateSessionRequest.applicationUri := applicationUri;
           CreateSessionRequest.applicationName := OPCUAClient.applicationName this;
           CreateSessionRequest.serverUri := serverUri;
           CreateSessionRequest.endpointUrl := endpoint_url;
           CreateSessionRequest.sessionName := sessionName;
           CreateSessionRequest.clientNonce := clientNonce;
           CreateSessionRequest.clientCertificate := getCertificate env self;
           CreateSessionRequest.requestedSessionTimeout :=
             OPCUAClient.requestedSessionTimeout this;
           CreateSessionRequest.maxResponseMessageSize := 800000 |} in
      let st := set_client self this st in
      match createSession_transaction env request with
      | TransportError err => (st, Callback (Some err) None)
      | Response serviceResult response =>
        if bool_decide (serviceResult = StatusCodes.BadTooManySessions) then
          (st, Callback (Some (TooManySessions serviceResult)) None)
        else if bool_decide (serviceResult = StatusCodes.Good) then
          if negb (validateServerNonce (CreateSessionRequest.serverNonce request))
          then (st, Callback (Some InvalidServerNonce) None)
          else
            let '(session, st) :=
              new_session
                {| ClientSession._client := self;
                   ClientSession.name := CreateSessionRequest.sessionName request;
                   ClientSession.sessionId := CreateSessionResponse.sessionId response;
                   ClientSession.authenticationToken :=
                     CreateSessionResponse.authenticationToken response;
                   ClientSession.timeout :=
                     CreateSessionResponse.revisedSessionTimeout response;
                   ClientSession.serverNonce :=
                     CreateSessionResponse.serverNonce response;
                   ClientSession.serverCertificate :=
                     CreateSessionResponse.serverCertificate response;
                   ClientSession.serverSignature :=
                     CreateSessionResponse.serverSignature response;
                   ClientSession.serverEndpoints :=
                     CreateSessionResponse.serverEndpoints response |} st in
            let this :=
              OPCUAClient.set__server_endpoints
                (CreateSessionResponse.serverEndpoints response) this in
            (set_client self this st, Callback None (Some session))
        else
          (st, Callback (Some (SessionCreationRejected serviceResult)) None)
      end
    end
  end.

(** ** Identity tokens *)

(** [!userIdentityInfo || (!userIdentityInfo.userName && !userIdentityInfo.password)] *)
Definition isAnonymous (userIdentityInfo : option UserIdentityInfo.t) : bool :=
  match userIdentityInfo with
  | None => true
  | Some info =>
      negb (truthy (UserIdentityInfo.userName info))
      && negb (truthy (UserIdentityInfo.password info))
  end.

(** [v !== undefined] *)
Definition defined (v : JsValue) : bool :=
  match v with Undefined => false | _ => true end.

Definition isUserNamePassword (userIdentityInfo : UserIdentityInfo.t) : bool :=
  defined (UserIdentityInfo.userName userIdentityInfo)
  && defined (UserIdentityInfo.password userIdentityInfo).

Definition findUserTokenPolicy (endpoint_description : EndpointDescription.t)
    (userTokenType : UserIdentityTokenType.t) : option UserTokenPolicy.t :=
  let r :=
    List.filter
      (λ userIdentity,
         bool_decide (UserTokenPolicy.tokenType userIdentity = userTokenType))
      (EndpointDescription.userIdentityTokens endpoint_description) in
  match r with
  | [] => None
  | r0 :: _ => Some r0
  end.

(** [session.endpoint] and [session._client._secureChannel]: a session is
    given no endpoint of its own at creation; it reads the endpoint and the
    channel of the client it is attached to. *)
Definition session_client (st : State) (session : ClientSession.t)
    : Error + OPCUAClient.t :=
  match clients st !! ClientSession._client session with
  | Some c => inr c
  | None => inl dangling
  end.

Definition createAnonymousIdentityToken (st : State) (session : ClientSession.t)
    : Error + UserIdentityToken :=
  client ← session_client st session;
  endpoint_desc ← assert_some (OPCUAClient.endpoint client)
                    "endpoint_desc instanceof EndpointDescription";
  match findUserTokenPolicy endpoint_desc UserIdentityTokenType.ANONYMOUS with
  | None => inl CannotFindAnonymousPolicy
  | Some userTokenPolicy =>
      inr (AnonymousIdentityToken (UserTokenPolicy.policyId userTokenPolicy))
  end.

(** [v === null || typeof v === "string"] *)
Definition null_or_string (v : JsValue) : bool :=
  match v with Null | JsString _ => true | _ => false end.

(** The block that is encrypted: length prefix, password, server nonce. *)
Definition password_block (password serverNonce : Buffer) : Error + Buffer :=
  lenBuf ← writeUInt32LE (N.of_nat (length password + length serverNonce));
  mret (lenBuf ++ password ++ serverNonce).

Definition createUserNameIdentityToken (st : State) (session : ClientSession.t)
    (userName password : JsValue) : Error + UserIdentityToken :=
  _ ← assert (null_or_string userName)
        "userName === null || typeof userName === 'string'";
  _ ← assert (null_or_string password)
        "password === null || typeof password === 'string'";
  client ← session_client st session;
  endpoint_desc ← assert_some (OPCUAClient.endpoint client)
                    "endpoint_desc instanceof EndpointDescription";
  userTokenPolicy ←
    match findUserTokenPolicy endpoint_desc UserIdentityTokenType.USERNAME with
    | None => inl CannotFindUserNamePolicy
    | Some userTokenPolicy => inr userTokenPolicy
    end;
  let securityPolicy :=
    fromURI env (UserTokenPolicy.securityPolicyUri userTokenPolicy) in
  securityPolicy ←
    (if bool_decide (securityPolicy = SecurityPolicy.Invalid) then
       assert_some
         (SecureChannel.securityPolicy (OPCUAClient._secureChannel client))
         "securityPolicy"
     else inr securityPolicy);
  serverCertificate ← assert_some (ClientSession.serverCertificate session)
                        "serverCertificate instanceof Buffer";
  publicKey ← extractPublicKeyFromCertificateSync env serverCertificate;
  serverNonce ← assert_some (ClientSession.serverNonce session)
                  "serverNonce instanceof Buffer";
  cryptoFactory ←
    match getCryptoFactory env securityPolicy with
    | None => inl UnsupportedSecurityPolicy
    | Some cryptoFactory => inr cryptoFactory
    end;
  password ← new_Buffer_utf8 password;
  block ← password_block password serverNonce;
  mret (UserNameIdentityToken userName
          (CryptoFactory.asymmetricEncrypt cryptoFactory block publicKey)
          (CryptoFactory.asymmetricEncryptionAlgorithm cryptoFactory)
          (UserTokenPolicy.policyId userTokenPolicy)).

(** [createUserIdentityToken]: [inr token] is [callback(null, token)] and
    [inl err] is [callback(err)], also for what the two constructors throw
    inside [try]. The identity is read from [self.userIdentityInfo]. *)
Definition createUserIdentityToken (st : State) (self : OPCUAClient.t)
    (session : ClientSession.t) : Error + UserIdentityToken :=
  if isAnonymous (OPCUAClient.userIdentityInfo self) then
    createAnonymousIdentityToken st session
  else
    match OPCUAClient.userIdentityInfo self with
    | Some info =>
        if isUserNamePassword info then
          createUserNameIdentityToken st session
            (UserIdentityInfo.userName info) (UserIdentityInfo.password info)
        else inl InvalidUserIdentityToken
    | None => inl InvalidUserIdentityToken
    end.

(** ** ActivateSession *)

Definition computeClientSignature (self : nat) (channel : SecureChannel.t)
    (serverCertificate serverNonce : option Buffer) : Buffer :=
  computeSignature env serverCertificate serverNonce (getPrivateKey env self)
    (SecureChannel.messageBuilder_securityPolicy channel).

(** The request of [_activateSession]: no software certificate, no locale
    id, no user token signature. *)
Definition new_ActivateSessionRequest (clientSignature : Buffer)
    (userIdentityToken : UserIdentityToken) : ActivateSessionRequest.t :=
  {| ActivateSessionRequest.clientSignature := clientSignature;
     ActivateSessionRequest.clientSoftwareCertificates := [];
     ActivateSessionRequest.localeIds := [];
     ActivateSessionRequest.userIdentityToken := userIdentityToken;
     ActivateSessionRequest.userTokenSignature := (None, None) |}.

(** [session._client = client] on the stored session. *)
Definition attach (session client : nat) (st : State) : State :=
  match sessions st !! session with
  | Some s => set_session session (ClientSession.set__client client s) st
  | None => st
  end.

Definition _activateSession (self session : nat) (st : State)
    : State * Completion nat :=
  match clients st !! self, sessions st !! session with
  | Some this, Some s =>
    let serverCertificate := ClientSession.serverCertificate s in
    let serverNonce := ClientSession.serverNonce s in
    (* make sure session is attached to this client *)
    let _old_client := ClientSession._client s in
    let s := ClientSession.set__client self s in
    let st := set_session session s st in
    match createUserIdentityToken st this s with
    | inl err => (attach session _old_client st, Callback (Some err) None)
    | inr userIdentityToken =>
      let request :=
        new_ActivateSessionRequest
          (computeClientSignature self (OPCUAClient._secureChannel this)
             serverCertificate serverNonce)
          userIdentityToken in
      match activateSession_transaction env session request with
      | Response StatusCodes.Good response =>
          let s :=
            ClientSession.set_serverNonce
              (ActivateSessionResponse.serverNonce response) s in
          let st := set_session session s st in
          if negb (validateServerNonce (ClientSession.serverNonce s)) then
            (st, Callback (Some InvalidServerNonce) None)
          else (st, Callback None (Some session))
      | Response serviceResult _ =>
          (attach session _old_client st,
           Callback (Some (ActivationRejected serviceResult)) None)
      | TransportError err =>
          (attach session _old_client st, Callback (Some err) None)
      end
    end
  | _, _ => (st, Thrown dangling)
  end.

End Client.

(** ** The session collection of a client *)

Definition set_sessions_of (client : nat) (f : list nat -> list nat)
    (st : State) : State :=
  match clients st !! client with
  | Some c =>
      set_client client (OPCUAClient.set__sessions (f (OPCUAClient._sessions c)) c) st
  | None => st
  end.

(** Modelled from the spec: [_addSession] belongs to the base class, which
    is not part of the sources. The collection is an ownership set
    (section 3): the session is inserted, at the end, unless it is a member
    already; [reactivateSession] asserts it is a member afterwards. *)
Definition _addSession (self session : nat) (st : State) : State :=
  set_sessions_of self
    (λ l, if bool_decide (session ∈ l) then l else l ++ [session]) st.

(** Modelled from the spec: [_removeSession] belongs to the base class too.
    The session is removed from the collection (section 3);
    [reactivateSession] asserts it is no member afterwards. *)
Definition _removeSession (self session : nat) (st : State) : State :=
  set_sessions_of self (List.filter (λ x, negb (bool_decide (x = session)))) st.

Section Lifecycle.

Context (env : Env).

(** ** Reactivation, creation, closing *)

Definition reactivateSession (self session : nat) (st : State)
    : State * Completion unit :=
  match clients st !! self, sessions st !! session with
  | Some this, Some s =>
    let channel := OPCUAClient._secureChannel this in
    let '(resolved, this) := __resolveEndPoint env this in
    let st := set_client self this st in
    if negb resolved || negb (present (OPCUAClient.endpoint this)) then
      (st, Callback (Some (EndPointMustExist (SecureChannel.endpoint_url channel))) None)
    else
      match clients st !! ClientSession._client s with
      | None => (st, Thrown dangling)
      | Some session_client =>
        if negb (bool_decide (OPCUAClient.endpointUrl session_client
                              = OPCUAClient.endpointUrl this)) then
          (st, Thrown (AssertionError different_endpoint))
        else
          let old_client := ClientSession._client s in
          match _activateSession env self session st with
          | (st, Callback None _) =>
              if negb (bool_decide (old_client = self)) then
                (* remove session from old client *)
                let st := _removeSession old_client session st in
                let st := _addSession self session st in
                (st, Callback None None)
              else (st, Callback None None)
          | (st, Callback (Some err) _) => (st, Callback (Some err) None)
          | (st, Thrown err) => (st, Thrown err)
          end
      end
  | _, _ => (st, Thrown dangling)
  end.

(** [createSession(userIdentityInfo, callback)]; [None] is the call with the
    callback alone, which stands for [{}]. The session comes with the error
    when the activation fails: [callback(err, session)]. *)
Definition createSession (self : nat)
    (userIdentityInfo : option UserIdentityInfo.t) (st : State)
    : State * Completion nat :=
  match clients st !! self with
  | None => (st, Thrown dangling)
  | Some this =>
    let userIdentityInfo :=
      default (UserIdentityInfo.mk Undefined Undefined) userIdentityInfo in
    let st :=
      set_client self
        (OPCUAClient.set_userIdentityInfo (Some userIdentityInfo) this) st in
    match _createSession env self st with
    | (st, Callback (Some err) _) => (st, Callback (Some err) None)
    | (st, Callback None (Some session)) =>
        let st := _addSession self session st in
        match _activateSession env self session st with
        | (st, Callback err _) => (st, Callback err (Some session))
        | (st, Thrown err) => (st, Thrown err)
        end
    | (st, Callback None None) => (st, Thrown dangling)
    | (st, Thrown err) => (st, Thrown err)
    end
  end.

Definition changeSessionIdentity (self session : nat)
    (userIdentityInfo : option UserIdentityInfo.t) (st : State)
    : State * Completion unit :=
  match clients st !! self with
  | None => (st, Thrown dangling)
  | Some this =>
    let st :=
      set_client self (OPCUAClient.set_userIdentityInfo userIdentityInfo this) st in
    match _activateSession env self session st with
    | (st, Callback err _) => (st, Callback err None)
    | (st, Thrown err) => (st, Thrown err)
    end
  end.

Definition _closeSession (session : nat) (deleteSubscriptions : bool)
    (st : State) : State * Completion unit :=
  let request := CloseSessionRequest.mk deleteSubscriptions in
  match closeSession_transaction env session request with
  | TransportError err => (st, Callback (Some err) None)
  | Response _ response => (st, Callback None (Some response))
  end.

Definition closeSession (self session : nat) (st : State)
    : State * Completion unit :=
  match sessions st !! session with
  | None => (st, Thrown dangling)
  | Some s =>
    if negb (bool_decide (ClientSession._client s = self)) then
      (st, Thrown (AssertionError "session._client === self"))
    else
      let deleteSubscriptions := true in
      match _closeSession session deleteSubscriptions st with
      | (st, Callback err _) =>
          let st := _removeSession self session st in
          (st, Callback err None)
      | (st, Thrown err) => (st, Thrown err)
      end
  end.

(** ** Reconnection *)

Definition _ask_for_subscription_republish (session : nat) (st : State)
    : State * Completion unit :=
  let st :=
    mkState (clients st) (sessions st) (republish_log st ++ [session]) in
  (st, Callback (republish env session) None).

End Lifecycle.

(** *** The two halves of an activation

    [_activateSession] hands its request to the session and returns; what
    it does with the answer runs when the answer arrives, and other code
    runs in between. The two definitions below are the two halves of
    [_activateSession], cut at [session.performMessageTransaction]. *)

Module PendingActivation.
Record t := mk {
  _old_client : nat;
  request : ActivateSessionRequest.t
}.
End PendingActivation.

Section Exchange.

Context (env : Env).

(** Up to [session.performMessageTransaction(request, ...)]: the callback
    has been called already ([inl]), or the request is on its way
    ([inr]). *)
Definition _activateSession_request (self session : nat) (st : State)
    : State * (Completion nat + PendingActivation.t) :=
  match clients st !! self, sessions st !! session with
  | Some this, Some s =>
    let serverCertificate := ClientSession.serverCertificate s in
    let serverNonce := ClientSession.serverNonce s in
    let _old_client := ClientSession._client s in
    let s := ClientSession.set__client self s in
    let st := set_session session s st in
    match createUserIdentityToken env st this s with
    | inl err => (attach session _old_client st, inl (Callback (Some err) None))
    | inr userIdentityToken =>
      let request :=
        new_ActivateSessionRequest
          (computeClientSignature env self (OPCUAClient._secureChannel this)
             serverCertificate serverNonce)
          userIdentityToken in
      (st, inr (PendingActivation.mk _old_client request))
    end
  | _, _ => (st, inl (Thrown dangling))
  end.

(** The callback of [session.performMessageTransaction], on the session
    as it is when the answer arrives. *)
Definition _activateSession_response (session : nat)
    (pending : PendingActivation.t) (reply : Reply ActivateSessionResponse.t)
    (st : State) : State * Completion nat :=
  let _old_client := PendingActivation._old_client pending in
  match reply with
  | Response StatusCodes.Good response =>
      match sessions st !! session with
      | Some s =>
          let s :=
            ClientSession.set_serverNonce
              (ActivateSessionResponse.serverNonce response) s in
          let st := set_session session s st in
          if negb (validateServerNonce (ClientSession.serverNonce s)) then
            (st, Callback (Some InvalidServerNonce) None)
          else (st, Callback None (Some session))
      | None => (st, Thrown dangling)
      end
  | Response serviceResult _ =>
      (attach session _old_client st,
       Callback (Some (ActivationRejected serviceResult)) None)
  | TransportError err =>
      (attach session _old_client st, Callback (Some err) None)
  end.

End Exchange.

(** *** [async.map] over the sessions

    [async.map(sessions, iterator, callback)] starts the iterator on every
    item, in the order of the array, and returns. An iteration goes on
    when the answer it waits for arrives: first the answer to its
    ActivateSession request, then, after a successful activation, the
    answer to the republish it has asked for. *)

Inductive Iteration :=
| NotStarted
| Activating (pending : PendingActivation.t)
| Republishing (answer : Completion unit)
| Finished.

Module Recovery.
Record t := mk {
  (** the objects *)
  store : State;
  (** where each item of the array is *)
  iterations : list Iteration;
  (** the calls of [next], oldest first: the session and the error *)
  recorded : list (nat * option Error);
  (** how many iterations have called [next] without an error *)
  completed : nat;
  (** the argument of the final callback, once it has been called *)
  reported : option (option Error);
  (** an exception nobody catches *)
  thrown : option Error
}.
End Recovery.

(** [next(err)] of an iteration over [n] items: the final callback is
    called once, with the first error, or without one when every
    iteration has completed and none has reported an error. *)
Definition async_next (n session : nat) (err : option Error) (r : Recovery.t)
    : Recovery.t :=
  let recorded := Recovery.recorded r ++ [(session, err)] in
  match err with
  | Some e =>
      Recovery.mk (Recovery.store r) (Recovery.iterations r) recorded
        (Recovery.completed r)
        (match Recovery.reported r with
         | None => Some (Some e)
         | called => called
         end)
        (Recovery.thrown r)
  | None =>
      let completed := S (Recovery.completed r) in
      Recovery.mk (Recovery.store r) (Recovery.iterations r) recorded completed
        (match Recovery.reported r with
         | None => if n <=? completed then Some None else None
         | called => called
         end)
        (Recovery.thrown r)
  end.

Definition with_iteration (i : nat) (iteration : Iteration) (st : State)
    (r : Recovery.t) : Recovery.t :=
  Recovery.mk st (<[i := iteration]> (Recovery.iterations r))
    (Recovery.recorded r) (Recovery.completed r) (Recovery.reported r)
    (Recovery.thrown r).

Definition with_thrown (err : Error) (st : State) (r : Recovery.t)
    : Recovery.t :=
  Recovery.mk st (Recovery.iterations r) (Recovery.recorded r)
    (Recovery.completed r) (Recovery.reported r) (Some err).

Section Reconnection.

Context (env : Env).

(** The callback that the iterator of [_on_connection_reestablished]
    gives to [_activateSession]: without an error the republish is asked
    for, and [next] waits for its answer. *)
Definition activated (n i session : nat) (done : State * Completion nat)
    (r : Recovery.t) : Recovery.t :=
  match done with
  | (st, Callback None _) =>
      let '(st, answer) := _ask_for_subscription_republish env session st in
      with_iteration i (Republishing answer) st r
  | (st, Callback (Some err) _) =>
      async_next n session (Some err) (with_iteration i Finished st r)
  | (st, Thrown err) => with_thrown err st r
  end.

(** The iteration at position [i] goes one step further: it is started,
    or the answer it waits for arrives. *)
Definition advance (self : nat) (arr : list nat) (i : nat) (r : Recovery.t)
    : Recovery.t :=
  let n := length arr in
  match Recovery.thrown r, arr !! i, Recovery.iterations r !! i with
  | None, Some session, Some NotStarted =>
      match _activateSession_request env self session (Recovery.store r) with
      | (st, inl done) => activated n i session (st, done) r
      | (st, inr pending) => with_iteration i (Activating pending) st r
      end
  | None, Some session, Some (Activating pending) =>
      let reply :=
        activateSession_transaction env session
          (PendingActivation.request pending) in
      activated n i session
        (_activateSession_response session pending reply (Recovery.store r)) r
  | None, Some session, Some (Republishing answer) =>
      match answer with
      | Callback err _ =>
          async_next n session err
            (with_iteration i Finished (Recovery.store r) r)
      | Thrown err => with_thrown err (Recovery.store r) r
      end
  | _, _, _ => r
  end.

(** The server answers after [async.map] has returned, in an order of its
    own. [order] lists the positions in the array whose pending answer
    arrives next, one arrival after the other: the first time a position
    is listed its ActivateSession request is answered, the second time
    the republish it has asked for; a position with nothing pending is
    passed over. So [[2; 0; 1]] answers the activations of the third, the
    first and the second session in that order, and [[2; 2; 0; 1]] answers
    the republish of the third session before the two other activations.
    No exchange stays unanswered: what is still pending after [order] is
    answered in the order of the array. *)
Definition async_map (self : nat) (arr : list nat) (order : list nat)
    (st : State) : Recovery.t :=
  let n := length arr in
  let positions := seq 0 n in
  let r :=
    Recovery.mk st (replicate n NotStarted) [] 0
      (if n =? 0 then Some None else None) None in
  foldl (λ r i, advance self arr i r) r
    (positions ++ order ++ positions ++ positions).

(** The error of the base class implementation, called first, is not
    looked at. The final callback of [async.map] is the callback of the
    reconnection; it has been called when every iteration has called
    [next], which is the case once every exchange is answered. *)
Definition _on_connection_reestablished (self : nat) (order : list nat)
    (st : State) : State * Completion unit :=
  let _ := base_on_connection_reestablished env in
  match clients st !! self with
  | None => (st, Thrown dangling)
  | Some this =>
      let sessions := OPCUAClient._sessions this in
      let r := async_map self sessions order st in
      (Recovery.store r,
       match Recovery.thrown r, Recovery.reported r with
       | Some err, _ => Thrown err
       | None, Some err => Callback err None
       | None, None => Thrown dangling
       end)
  end.

End Reconnection.

(** ** A small deployment used in the examples *)

Module Fixture.

Definition url : string := "opc.tcp://server:4840".
Definition other_url : string := "opc.tcp://192.168.0.7:4840".
Definition none_uri : string :=
  "http://opcfoundation.org/UA/SecurityPolicy#None".
Definition basic128_uri : string :=
  "http://opcfoundation.org/UA/SecurityPolicy#Basic128Rsa15".

Definition anonymous_policy : UserTokenPolicy.t :=
  UserTokenPolicy.mk "anonymous" UserIdentityTokenType.ANONYMOUS None.
Definition username_policy : UserTokenPolicy.t :=
  UserTokenPolicy.mk "username_basic128" UserIdentityTokenType.USERNAME
    (Some basic128_uri).

Definition endpoint_at (u : string) : EndpointDescription.t :=
  EndpointDescription.mk u MessageSecurityMode.NONE none_uri
    [anonymous_policy; username_policy] "urn:server".

Definition channel : SecureChannel.t :=
  SecureChannel.mk url MessageSecurityMode.NONE (Some SecurityPolicy.None)
    SecurityPolicy.None.

Definition nonce32 : Buffer := repeat x01 32.
Definition short_nonce : Buffer := [x01; x02; x03].
Definition certificate : Buffer := [xc0; xde].

(** A stand-in cipher: the block reversed behind the key. *)
Definition toy_encrypt (block key : Buffer) : Buffer := key ++ reverse block.
Definition toy_decrypt (cipher key : Buffer) : Buffer :=
  reverse (drop (length key) cipher).

Definition good_create (nonce : option Buffer) : Reply CreateSessionResponse.t :=
  Response StatusCodes.Good
    (CreateSessionResponse.mk "ns=1;i=11" "ns=1;i=12" 30000 nonce
       (Some certificate) None [endpoint_at url]).

Definition good_activate (nonce : option Buffer)
    : Reply ActivateSessionResponse.t :=
  Response StatusCodes.Good (ActivateSessionResponse.mk nonce).

Definition env (create_reply : Reply CreateSessionResponse.t)
    (activate_reply : nat -> Reply ActivateSessionResponse.t)
    (close_reply : Reply unit) (republish_reply : nat -> option Error) : Env :=
  {| SecurityPolicy_value p :=
       match p with
       | SecurityPolicy.Invalid => "invalid"
       | SecurityPolicy.None => none_uri
       | SecurityPolicy.Member key =>
           "http://opcfoundation.org/UA/SecurityPolicy#" +:+ key
       end;
     fromURI uri :=
       match uri with
       | Some u =>
           if String.eqb u none_uri then SecurityPolicy.None
           else if String.eqb u basic128_uri
                then SecurityPolicy.Member "Basic128Rsa15"
                else SecurityPolicy.Invalid
       | None => SecurityPolicy.Invalid
       end;
     getCryptoFactory p :=
       match p with
       | SecurityPolicy.Member _ =>
           Some (CryptoFactory.mk "http://www.w3.org/2001/04/xmlenc#rsa-1_5"
                   toy_encrypt)
       | _ => None
       end;
     computeSignature cert nonce key _ :=
       default [] cert ++ default [] nonce ++ key;
     extractPublicKeyFromCertificateSync cert := inr cert;
     getCertificate _ := None;
     getPrivateKey _ := [x2a];
     subjectAltName_uniformResourceIdentifier _ := "urn:client";
     get_fully_qualified_domain_name := "localhost";
     makeApplicationUrn host name := "urn:" +:+ host +:+ ":" +:+ name;
     randomBytes n := repeat x00 n;
     createSession_transaction _ := create_reply;
     activateSession_transaction session _ := activate_reply session;
     closeSession_transaction _ _ := close_reply;
     republish := republish_reply;
     base_on_connection_reestablished := None |}.

(** A connected client whose server published [endpoints]. *)
Definition client (options : Options.t) (endpoints : list EndpointDescription.t)
    : OPCUAClient.t :=
  OPCUAClient_new options channel endpoints.

Definition strict : Options.t :=
  Options.mk (JsBool true) None None None None.

(** A session as [_createSession] leaves it, owned by [owner]. *)
Definition session (owner : nat) (name : string) : ClientSession.t :=
  ClientSession.mk owner name "ns=1;i=11" "ns=1;i=12" 30000
    (Some nonce32) (Some certificate) None [endpoint_at url].

(** A resolved client holding the sessions [l]. *)
Definition resolved_client (l : list nat) : OPCUAClient.t :=
  OPCUAClient.set__sessions l
    (OPCUAClient.set_endpoint (Some (endpoint_at url))
       (client strict [endpoint_at url])).

(** The store of one resolved client, holding no session, whose identity
    is [info], and one session created by it. *)
Definition identity_client (info : option UserIdentityInfo.t) : OPCUAClient.t :=
  OPCUAClient.set_userIdentityInfo info (resolved_client []).
Definition identity_store (info : option UserIdentityInfo.t) : State :=
  mkState [identity_client info] [session 0 "Session1"] [].

(** Client 0 owns session 0; [other] is client 1, on the same URL. *)
Definition two_clients (other : OPCUAClient.t) : State :=
  mkState [resolved_client [0]; other] [session 0 "Session1"] [].

(** A server whose CreateSession response lists no endpoint. *)
Definition forgetful : Env :=
  env (Response StatusCodes.Good
         (CreateSessionResponse.mk "ns=1;i=21" "ns=1;i=22" 30000 (Some nonce32)
            (Some certificate) None []))
    (λ _, good_activate (Some nonce32)) (Response StatusCodes.Good ())
    (λ _, None).

(** Client 1, strict, has created a session of its own on that server: its
    endpoint is resolved, and the endpoints it knows are now those of the
    response, none. *)
Definition after_create : State :=
  (createSession forgetful 1 None
     (two_clients (client strict [endpoint_at url]))).1.

Definition quiet : Env :=
  env (good_create (Some nonce32)) (λ _, good_activate (Some nonce32))
    (Response StatusCodes.Good ()) (λ _, None).

End Fixture.

(** ** What one session's recovery reports *)

(** The error with which [_activateSession] ends, if any. *)
Definition activation_error (env : Env) (self session : nat) (st : State)
    : option Error :=
  match (_activateSession env self session st).2 with
  | Callback err _ => err
  | Thrown err => Some err
  end.

(** The error that the recovery of one session hands to [next]: the one of
    its activation, and after a successful activation the one of its
    republish. *)
Definition recovery_error (env : Env) (self : nat) (st : State) (session : nat)
    : option Error :=
  match activation_error env self session st with
  | Some err => Some err
  | None => republish env session
  end.

(** The first error among the recorded calls of [next]. *)
Fixpoint first_recorded_error (recorded : list (nat * option Error))
    : option Error :=
  match recorded with
  | [] => None
  | (_, Some err) :: _ => Some err
  | (_, None) :: recorded => first_recorded_error recorded
  end.

(** ** A recovery under way *)

(** The steps an iteration has before it: its start, the answer to its
    activation, the answer to its republish. *)
Definition stage (iteration : Iteration) : nat :=
  match iteration with
  | NotStarted => 3
  | Activating _ => 2
  | Republishing _ => 1
  | Finished => 0
  end.

Definition stage_at (r : Recovery.t) (i : nat) : nat :=
  from_option stage 0 (Recovery.iterations r !! i).

(** The republish requests made since the recovery began in [st]. *)
Definition requested (st : State) (r : Recovery.t) : list nat :=
  drop (length (republish_log st)) (republish_log (Recovery.store r)).

(** What the session of an iteration looks like, [now], by where the
    iteration is, for a recovery that began in [st]. *)
Definition iteration_ok (env : Env) (self : nat) (st : State) (session : nat)
    (now : option ClientSession.t) (iteration : Iteration) : Prop :=
  match iteration with
  | NotStarted => now = sessions st !! session
  | Activating pending =>
      ∃ st1,
        _activateSession_request env self session st = (st1, inr pending)
        ∧ now = sessions st1 !! session
  | Republishing answer =>
      activation_error env self session st = None
      ∧ answer = Callback (republish env session) None
      ∧ now = sessions (_activateSession env self session st).1 !! session
  | Finished =>
      now = sessions (_activateSession env self session st).1 !! session
  end.

(** The invariant of a recovery of the sessions [arr] that began in
    [st]. *)
Record consistent (env : Env) (self : nat) (st : State) (arr : list nat)
    (r : Recovery.t) : Prop := mk_consistent {
  c_thrown : Recovery.thrown r = None;
  c_clients : clients (Recovery.store r) = clients st;
  c_length : length (Recovery.iterations r) = length arr;
  c_completed : Recovery.completed r ≤ length (Recovery.recorded r);
  c_all_good :
    first_recorded_error (Recovery.recorded r) = None →
    Recovery.completed r = length (Recovery.recorded r);
  c_reported :
    Recovery.reported r
    = match first_recorded_error (Recovery.recorded r) with
      | Some err => Some (Some err)
      | None =>
          if length arr <=? Recovery.completed r then Some None else None
      end;
  c_log :
    republish_log (Recovery.store r) = republish_log st ++ requested st r;
  c_requested_NoDup : NoDup (requested st r);
  c_requested_in : ∀ x, x ∈ requested st r → x ∈ arr;
  c_recorded_NoDup : NoDup (Recovery.recorded r).*1;
  c_recorded_in : ∀ x, x ∈ (Recovery.recorded r).*1 → x ∈ arr;
  c_recorded_error :
    ∀ x err, (x, err) ∈ Recovery.recorded r →
      err = recovery_error env self st x;
  c_iteration :
    ∀ i x iteration,
      arr !! i = Some x → Recovery.iterations r !! i = Some iteration →
      iteration_ok env self st x (sessions (Recovery.store r) !! x) iteration
      ∧ (x ∈ requested st r
         ↔ stage iteration ≤ 1 ∧ activation_error env self x st = None)
      ∧ (x ∈ (Recovery.recorded r).*1 ↔ iteration = Finished)
}.

(** What a recovery of the sessions [arr] that began in [st] leaves
    alone. *)
Definition framed (st : State) (arr : list nat) (r : Recovery.t) : Prop :=
  clients (Recovery.store r) = clients st
  ∧ (∀ j, j ∉ arr → sessions (Recovery.store r) !! j = sessions st !! j)
  ∧ ∃ extra,
      republish_log (Recovery.store r) = republish_log st ++ extra
      ∧ ∀ x, x ∈ extra → x ∈ arr.

(** ** The kinds of identity *)

Inductive TokenKind := KindAnonymous | KindUserNamePassword | KindInvalid.

(** The branch [createUserIdentityToken] takes. *)
Definition classify (userIdentityInfo : option UserIdentityInfo.t) : TokenKind :=
  if isAnonymous userIdentityInfo then KindAnonymous
  else
    match userIdentityInfo with
    | Some info =>
        if isUserNamePassword info then KindUserNamePassword else KindInvalid
    | None => KindInvalid
    end.

(** The classification in the words of the design, for a reading
    [is_present] of "is present": neither present is Anonymous, both
    present is UserNamePassword, any other shape is invalid. *)
Definition stated_kind (is_present : JsValue → bool) (info : UserIdentityInfo.t)
    : TokenKind :=
  match is_present (UserIdentityInfo.userName info),
        is_present (UserIdentityInfo.password info) with
  | false, false => KindAnonymous
  | true, true => KindUserNamePassword
  | _, _ => KindInvalid
  end.

(** The encrypted password a token carries. *)
Definition token_password (token : UserIdentityToken) : option Buffer :=
  match token with
  | AnonymousIdentityToken _ => None
  | UserNameIdentityToken _ password _ _ => Some password
  end.

(** ** Ownership *)

(** [client._sessions] *)
Definition collection (client : nat) (st : State) : list nat :=
  from_option OPCUAClient._sessions [] (clients st !! client).

(** [session._client] *)
Definition owner (session : nat) (st : State) : option nat :=
  ClientSession._client <$> sessions st !! session.

(** [l] without [session]. *)
Definition without (session : nat) (l : list nat) : list nat :=
  List.filter (λ x, negb (bool_decide (x = session))) l.

(** [l] with [session], at the end unless it is there. *)
Definition with_session (session : nat) (l : list nat) : list nat :=
  if bool_decide (session ∈ l) then l else l ++ [session].

(** [st'] differs from [st] at most in the session [session]. *)
Definition only_session (session : nat) (st st' : State) : Prop :=
  clients st' = clients st
  ∧ republish_log st' = republish_log st
  ∧ ∀ j, j ≠ session → sessions st' !! j = sessions st !! j.

(** ** Names, and what a token says of itself *)

(** The names of [n] successive calls of [_nextSessionName]. *)
Fixpoint session_names (n : nat) (this : OPCUAClient.t) : list string :=
  match n with
  | 0 => []
  | S n =>
      let '(name, this) := _nextSessionName this in
      name :: session_names n this
  end.

(** [token.policyId] *)
Definition token_policyId (token : UserIdentityToken) : string :=
  match token with
  | AnonymousIdentityToken policyId => policyId
  | UserNameIdentityToken _ _ _ policyId => policyId
  end.

(** The token type a token answers to. *)
Definition token_type (token : UserIdentityToken) : UserIdentityTokenType.t :=
  match token with
  | AnonymousIdentityToken _ => UserIdentityTokenType.ANONYMOUS
  | UserNameIdentityToken _ _ _ _ => UserIdentityTokenType.USERNAME
  end.

(** * Properties *)

(** ** The server nonce check *)

Lemma validateServerNonce_absent : validateServerNonce None = true.
Proof. reflexivity. Qed.

Lemma validateServerNonce_buffer (b : Buffer) :
  validateServerNonce (Some b) = negb (length b <? 32)%nat.
Proof. unfold validateServerNonce; simpl. by destruct (length b <? 32)%nat. Qed.

(** C5, as amended. For every nonce, absent or a buffer of any length,
    [validateServerNonce] returns false exactly when the nonce is a buffer
    of fewer than 32 bytes; the absent nonce is accepted, and the buffer of
    length zero, being a buffer of fewer than 32 bytes, is rejected. *)
Theorem validateServerNonce_false_iff :
  (∀ N : option Buffer,
     validateServerNonce N = false ↔ ∃ b, N = Some b ∧ (length b < 32)%nat)
  ∧ validateServerNonce None = true
  ∧ validateServerNonce (Some []) = false.
Proof.
  split; [|done].
  intros [b|].
  - rewrite validateServerNonce_buffer, negb_false_iff, Nat.ltb_lt.
    split; [eauto | by intros (b' & [= <-] & ?)].
  - split; [done | by intros (b & ? & _)].
Qed.

(** C5, as stated: an empty nonce is accepted. The empty buffer is not. *)
Lemma validateServerNonce_rejects_empty_buffer :
  ¬ (validateServerNonce (Some []) = true).
Proof. done. Qed.

(** ** CreateSession *)

(** What [_createSession] answers once the endpoint is resolved and the
    request is sent: the reply alone decides, and on [Good] the session is
    populated with whatever server nonce the response carries. *)
Lemma _createSession_reply env self st this this' endpoint :
  clients st !! self = Some this →
  __resolveEndPoint env this = (true, this') →
  OPCUAClient.endpoint this' = Some endpoint →
  EndpointDescription.server_applicationUri endpoint ≠ "" →
  SecureChannel.endpoint_url (OPCUAClient._secureChannel this) ≠ "" →
  let done := _createSession env self st in
  ∃ request,
    match createSession_transaction env request with
    | TransportError err => done.2 = Callback (Some err) None
    | Response StatusCodes.BadTooManySessions _ =>
        done.2 = Callback (Some (TooManySessions StatusCodes.BadTooManySessions)) None
    | Response StatusCodes.Good response =>
        done.2 = Callback None (Some (length (sessions st)))
        ∧ ClientSession.serverNonce <$> sessions done.1 !! length (sessions st)
          = Some (CreateSessionResponse.serverNonce response)
    | Response (StatusCodes.Bad name) _ =>
        done.2 = Callback (Some (SessionCreationRejected (StatusCodes.Bad name))) None
    end.
Proof.
  intros Hself Hres Hep Huri Hurl done.
  assert (Hdone : done = _createSession env self st) by done.
  clearbody done. unfold _createSession in Hdone.
  rewrite Hself, Hres in Hdone. cbn zeta in Hdone. rewrite Hep in Hdone.
  apply String.eqb_neq in Huri, Hurl. rewrite Huri, Hurl in Hdone.
  destruct (_nextSessionName _) as [sessionName this2] eqn:Hname.
  match type of Hdone with
  | context [createSession_transaction env ?r] => exists r
  end.
  destruct (createSession_transaction env _) as [err | [| |name] response];
    subst done; [done | | done | done].
  split; [done|].
  rewrite bool_decide_eq_false_2, bool_decide_eq_true_2 by done.
  cbn -[lookup app].
  by rewrite lookup_app_r, Nat.sub_diag.
Qed.

(** C1, at the failing input: the server answers [Good] with a server nonce
    of three bytes. [_createSession] hands over a populated session holding
    that nonce, which [validateServerNonce] refuses: the check reads the
    nonce of the request, which has none. *)
Theorem _createSession_keeps_short_nonce :
  let env :=
    Fixture.env (Fixture.good_create (Some Fixture.short_nonce))
      (λ _, Fixture.good_activate None) (Response StatusCodes.Good ())
      (λ _, None) in
  let st := mkState [Fixture.client Fixture.strict [Fixture.endpoint_at Fixture.url]] [] [] in
  validateServerNonce (Some Fixture.short_nonce) = false
  ∧ (_createSession env 0 st).2 = Callback None (Some 0)
  ∧ ClientSession.serverNonce <$> sessions (_createSession env 0 st).1 !! 0
    = Some (Some Fixture.short_nonce).
Proof. by vm_compute. Qed.

(** ** Endpoint resolution *)

Section Resolution.

Context (env : Env).

Lemma OPCUAClient_new_endpoint_must_exist options channel endpoints :
  OPCUAClient.endpoint_must_exist (OPCUAClient_new options channel endpoints)
  = match Options.endpoint_must_exist options with
    | Null => JsBool true
    | v => v
    end.
Proof. reflexivity. Qed.

Lemma findEndpoint_Some this url mode policy endpoint :
  findEndpoint env this url mode policy = Some endpoint →
  endpoint ∈ OPCUAClient._server_endpoints this
  ∧ EndpointDescription.endpointUrl endpoint = url
  ∧ EndpointDescription.securityMode endpoint = mode
  ∧ EndpointDescription.securityPolicyUri endpoint = SecurityPolicy_value env policy.
Proof.
  unfold findEndpoint, matches_security. intros H.
  pose proof (find_some _ _ H) as [Hin Hb].
  apply list_elem_of_In in Hin.
  rewrite !andb_true_iff, !bool_decide_eq_true in Hb.
  by destruct Hb as (? & ? & ?).
Qed.

(** An endpoint for the URL is also an endpoint for the security settings. *)
Lemma findEndpoint_findEndpointForSecurity this url mode policy :
  findEndpointForSecurity env this mode policy = None →
  findEndpoint env this url mode policy = None.
Proof.
  unfold findEndpoint, findEndpointForSecurity.
  induction (OPCUAClient._server_endpoints this) as [|e l IH]; [done|].
  simpl. destruct (matches_security env mode policy e); [done|].
  rewrite andb_false_r. exact IH.
Qed.

(** Strict mode: the resolution succeeds exactly when an endpoint is
    published for the channel URL with the requested mode and policy. *)
Lemma __resolveEndPoint_strict this :
  truthy (OPCUAClient.endpoint_must_exist this) = true →
  let found :=
    findEndpoint env this
      (SecureChannel.endpoint_url (OPCUAClient._secureChannel this))
      (OPCUAClient.securityMode this)
      (default SecurityPolicy.None (OPCUAClient.securityPolicy this)) in
  (__resolveEndPoint env this).1 = present found
  ∧ OPCUAClient.endpoint (__resolveEndPoint env this).2 = found.
Proof.
  intros Hstrict found. subst found. unfold __resolveEndPoint. cbn zeta.
  change (findEndpoint env (OPCUAClient.set_securityPolicy _ this))
    with (findEndpoint env this).
  cbn [OPCUAClient.endpoint OPCUAClient.set_endpoint OPCUAClient.securityMode
       OPCUAClient._secureChannel OPCUAClient.set_securityPolicy].
  destruct (findEndpoint env this _ _ _) as [e|] eqn:Hf; [done|].
  cbn [OPCUAClient.endpoint_must_exist OPCUAClient.set_endpoint
       OPCUAClient.set_securityPolicy].
  by rewrite Hstrict.
Qed.

(** Relaxed mode: without an endpoint for the URL, the first endpoint with
    the requested mode and policy is taken; the resolution fails only when
    there is none. *)
Lemma __resolveEndPoint_relaxed this :
  truthy (OPCUAClient.endpoint_must_exist this) = false →
  let mode := OPCUAClient.securityMode this in
  let policy := default SecurityPolicy.None (OPCUAClient.securityPolicy this) in
  let found :=
    findEndpoint env this
      (SecureChannel.endpoint_url (OPCUAClient._secureChannel this)) mode policy in
  let fallback := findEndpointForSecurity env this mode policy in
  (__resolveEndPoint env this).1 = present fallback
  ∧ OPCUAClient.endpoint (__resolveEndPoint env this).2
    = match found with Some e => Some e | None => fallback end.
Proof.
  intros Hrelaxed mode policy found fallback.
  subst found fallback mode policy. unfold __resolveEndPoint. cbn zeta.
  change (findEndpoint env (OPCUAClient.set_securityPolicy _ this))
    with (findEndpoint env this).
  cbn [OPCUAClient.endpoint OPCUAClient.set_endpoint OPCUAClient.securityMode
       OPCUAClient._secureChannel OPCUAClient.set_securityPolicy].
  destruct (findEndpoint env this _ _ _) as [e|] eqn:Hf.
  - split; [|done]. simpl.
    destruct (findEndpointForSecurity env this _ _) eqn:Hfb; [done|].
    by rewrite (findEndpoint_findEndpointForSecurity _ _ _ _ Hfb) in Hf.
  - cbn [OPCUAClient.endpoint_must_exist OPCUAClient.set_endpoint
         OPCUAClient.set_securityPolicy].
    rewrite Hrelaxed.
    change (findEndpointForSecurity env (OPCUAClient.set_endpoint _ _))
      with (findEndpointForSecurity env this).
    by destruct (findEndpointForSecurity env this _ _).
Qed.

End Resolution.

(** C2, at the failing input: a client constructed from [{}]. The option
    is compared with [null] only, so [endpoint_must_exist] stays
    [undefined], which is falsy: with no endpoint published for the channel
    URL, the resolution succeeds on the endpoint of another URL, as in
    relaxed mode, instead of failing. *)
Theorem endpoint_must_exist_unspecified_is_relaxed :
  let env :=
    Fixture.env (Fixture.good_create None) (λ _, Fixture.good_activate None)
      (Response StatusCodes.Good ()) (λ _, None) in
  let this := Fixture.client Options.empty [Fixture.endpoint_at Fixture.other_url] in
  OPCUAClient.endpoint_must_exist this = Undefined
  ∧ truthy (OPCUAClient.endpoint_must_exist this) = false
  ∧ findEndpoint env this Fixture.url MessageSecurityMode.NONE SecurityPolicy.None
    = None
  ∧ (__resolveEndPoint env this).1 = true
  ∧ OPCUAClient.endpoint (__resolveEndPoint env this).2
    = Some (Fixture.endpoint_at Fixture.other_url).
Proof. by vm_compute. Qed.

(** ** ActivateSession *)

Lemma set_session_id i s st : sessions st !! i = Some s → set_session i s st = st.
Proof.
  intros H. destruct st as [cs ss log]. unfold set_session. simpl in *.
  by rewrite list_insert_id.
Qed.

Lemma set_session_twice i s s' st :
  set_session i s' (set_session i s st) = set_session i s' st.
Proof. unfold set_session. simpl. by rewrite list_insert_insert_eq. Qed.

Lemma set_session_lookup i s st :
  sessions st !! i = Some s → ∀ s', sessions (set_session i s' st) !! i = Some s'.
Proof.
  intros H s'. simpl. apply list_lookup_insert_eq. by eapply lookup_lt_Some.
Qed.

Lemma set__client_back s c :
  ClientSession.set__client (ClientSession._client s) (ClientSession.set__client c s) = s.
Proof. by destruct s. Qed.

(** Detaching again after a failure gives back the store as it was. *)
Lemma attach_back self session st s :
  sessions st !! session = Some s →
  attach session (ClientSession._client s)
    (set_session session (ClientSession.set__client self s) st) = st.
Proof.
  intros H. unfold attach.
  rewrite (set_session_lookup _ _ _ H), set_session_twice, set__client_back.
  by apply set_session_id.
Qed.

Section Activation.

Context (env : Env) (self session : nat) (st : State).
Context (this : OPCUAClient.t) (s : ClientSession.t).
Hypothesis Hself : clients st !! self = Some this.
Hypothesis Hsession : sessions st !! session = Some s.

(** The session while it is attached to [self]. *)
Let attached := ClientSession.set__client self s.
Let request (token : UserIdentityToken) :=
  new_ActivateSessionRequest
    (computeClientSignature env self (OPCUAClient._secureChannel this)
       (ClientSession.serverCertificate s) (ClientSession.serverNonce s))
    token.

(** Identity-token derivation fails: the error is surfaced and the store is
    as before the call. *)
Lemma _activateSession_token_failure err :
  createUserIdentityToken env (set_session session attached st) this attached
  = inl err →
  _activateSession env self session st = (st, Callback (Some err) None).
Proof.
  intros Htok. unfold attached in Htok.
  unfold _activateSession. rewrite Hself, Hsession.
  cbn zeta. rewrite Htok. by rewrite attach_back.
Qed.

(** The transaction fails, or the server answers with another code than
    [Good]: the store is as before the call. *)
Lemma _activateSession_transaction_failure token :
  createUserIdentityToken env (set_session session attached st) this attached
  = inr token →
  match activateSession_transaction env session (request token) with
  | TransportError err =>
      _activateSession env self session st = (st, Callback (Some err) None)
  | Response StatusCodes.Good _ => True
  | Response serviceResult _ =>
      _activateSession env self session st
      = (st, Callback (Some (ActivationRejected serviceResult)) None)
  end.
Proof.
  intros Htok. unfold attached, request in *.
  unfold _activateSession. rewrite Hself, Hsession.
  cbn zeta. rewrite Htok.
  destruct (activateSession_transaction env session _)
    as [err | [| |name] response]; [|done| |]; by rewrite attach_back.
Qed.

(** The server answers [Good]: the session stays attached to [self] and
    takes the nonce of the response, whether that nonce is valid or not. *)
Lemma _activateSession_good token response :
  createUserIdentityToken env (set_session session attached st) this attached
  = inr token →
  activateSession_transaction env session (request token)
  = Response StatusCodes.Good response →
  let nonce := ActivateSessionResponse.serverNonce response in
  _activateSession env self session st
  = (set_session session (ClientSession.set_serverNonce nonce attached) st,
     if validateServerNonce nonce then Callback None (Some session)
     else Callback (Some InvalidServerNonce) None).
Proof.
  intros Htok Hreply nonce. unfold attached, request in *.
  unfold _activateSession. rewrite Hself, Hsession.
  cbn zeta. rewrite Htok, Hreply, set_session_twice.
  change (ClientSession.serverNonce (ClientSession.set_serverNonce _ _))
    with nonce.
  by destruct (validateServerNonce nonce).
Qed.

End Activation.

(** C3, at the failing input: session 0 belongs to client 0 and client 1
    activates it; the server answers [Good] with a nonce of three bytes.
    The activation fails with the invalid-nonce error and the session is
    left attached to client 1: this failure path returns without the
    [session._client = _old_client] of the two others. *)
Theorem _activateSession_invalid_nonce_keeps_new_client :
  let env :=
    Fixture.env (Fixture.good_create None)
      (λ _, Fixture.good_activate (Some Fixture.short_nonce))
      (Response StatusCodes.Good ()) (λ _, None) in
  let st :=
    mkState [Fixture.resolved_client [0]; Fixture.resolved_client []]
      [Fixture.session 0 "Session1"] [] in
  ClientSession._client <$> sessions st !! 0 = Some 0
  ∧ (_activateSession env 1 0 st).2 = Callback (Some InvalidServerNonce) None
  ∧ ClientSession._client <$> sessions (_activateSession env 1 0 st).1 !! 0
    = Some 1.
Proof. by vm_compute. Qed.

(** ** Reconnection *)

Lemma only_session_refl session st : only_session session st st.
Proof. done. Qed.

Lemma only_session_trans session st1 st2 st3 :
  only_session session st1 st2 → only_session session st2 st3 →
  only_session session st1 st3.
Proof.
  intros (Hc & Hl & Hs) (Hc' & Hl' & Hs'). repeat split; [congruence..|].
  intros j Hj. by rewrite Hs', Hs.
Qed.

Lemma only_session_set session s st : only_session session st (set_session session s st).
Proof. repeat split. intros j Hj. simpl. by apply list_lookup_insert_ne. Qed.

Lemma only_session_attach session client st :
  only_session session st (attach session client st).
Proof.
  unfold attach. destruct (sessions st !! session);
    [apply only_session_set | apply only_session_refl].
Qed.

Create HintDb frame.
#[local] Hint Resolve only_session_refl only_session_set only_session_attach : frame.

Section Recovery.

Context (env : Env) (self : nat).

(** An activation touches no other session, no client and no republish. *)
Lemma _activateSession_only_session session st :
  only_session session st (_activateSession env self session st).1.
Proof.
  unfold _activateSession.
  destruct (clients st !! self) as [this|]; [|auto with frame].
  destruct (sessions st !! session) as [s|]; [|auto with frame].
  cbn zeta. destruct (createUserIdentityToken _ _ _ _) as [err|token].
  - cbn [fst]. eapply only_session_trans; [apply only_session_set|auto with frame].
  - destruct (activateSession_transaction _ _ _) as [err|[| |name] response];
      cbn [fst];
      try (eapply only_session_trans; [apply only_session_set|auto with frame]).
    destruct (negb _); cbn [fst];
      (eapply only_session_trans; [apply only_session_set|auto with frame]).
Qed.

(** The token depends on the store through the clients only. *)
Lemma createUserIdentityToken_clients st1 st2 this s :
  clients st1 = clients st2 →
  createUserIdentityToken env st1 this s = createUserIdentityToken env st2 this s.
Proof.
  intros H.
  unfold createUserIdentityToken, createAnonymousIdentityToken,
    createUserNameIdentityToken, session_client.
  by rewrite H.
Qed.

(** An activation depends on the store through the clients and the session
    only: its answer and what it leaves in the session are the same. *)
Lemma _activateSession_local session st1 st2 :
  clients st1 = clients st2 →
  sessions st1 !! session = sessions st2 !! session →
  (_activateSession env self session st1).2 = (_activateSession env self session st2).2
  ∧ sessions (_activateSession env self session st1).1 !! session
    = sessions (_activateSession env self session st2).1 !! session.
Proof.
  intros Hc Hs.
  destruct (clients st2 !! self) as [this|] eqn:Hself; cycle 1.
  { unfold _activateSession. by rewrite Hc, Hself. }
  destruct (sessions st2 !! session) as [s|] eqn:Hsession; cycle 1.
  { unfold _activateSession. rewrite Hc, Hself, Hs, Hsession. split; [done|].
    cbn [fst]. by rewrite Hs. }
  assert (Hself1 : clients st1 !! self = Some this) by by rewrite Hc.
  set (attached := ClientSession.set__client self s).
  assert (Htok :
    createUserIdentityToken env (set_session session attached st1) this attached
    = createUserIdentityToken env (set_session session attached st2) this attached)
    by by apply createUserIdentityToken_clients.
  destruct (createUserIdentityToken env (set_session session attached st2) this attached)
    as [err|token] eqn:Htok2.
  - rewrite (_activateSession_token_failure env self session st1 this s Hself1 Hs err Htok).
    rewrite (_activateSession_token_failure env self session st2 this s Hself Hsession err Htok2).
    split; [done|]. cbn [fst]. by rewrite Hs, Hsession.
  - pose proof (_activateSession_transaction_failure env self session st1 this s Hself1 Hs token Htok) as H1.
    pose proof (_activateSession_transaction_failure env self session st2 this s Hself Hsession token Htok2) as H2.
    pose proof (λ response, _activateSession_good env self session st1 this s Hself1 Hs token response Htok) as G1.
    pose proof (λ response, _activateSession_good env self session st2 this s Hself Hsession token response Htok2) as G2.
    destruct (activateSession_transaction env session _) as [err|[| |name] response].
    + rewrite H1, H2. split; [done|]. cbn [fst]. by rewrite Hs, Hsession.
    + rewrite (G1 response), (G2 response) by done. split; [done|].
      cbn [fst]. by rewrite !(set_session_lookup _ s).
    + rewrite H1, H2. split; [done|]. cbn [fst]. by rewrite Hs, Hsession.
    + rewrite H1, H2. split; [done|]. cbn [fst]. by rewrite Hs, Hsession.
Qed.

(** With the client and the session in the store, an activation ends in a
    callback. *)
Lemma _activateSession_callback session st this s :
  clients st !! self = Some this → sessions st !! session = Some s →
  ∃ err result, (_activateSession env self session st).2 = Callback err result.
Proof.
  intros Hself Hsession. unfold _activateSession. rewrite Hself, Hsession.
  cbn zeta. destruct (createUserIdentityToken _ _ _ _); [by eexists _, _|].
  destruct (activateSession_transaction _ _ _) as [err|[| |name] response];
    try by eexists _, _.
  destruct (negb _); by eexists _, _.
Qed.

End Recovery.

Section Halves.

Context (env : Env) (self : nat).

(** [_activateSession] is its two halves, the answer arriving at once. *)
Lemma _activateSession_halves session st :
  _activateSession env self session st
  = match _activateSession_request env self session st with
    | (st1, inl done) => (st1, done)
    | (st1, inr pending) =>
        _activateSession_response session pending
          (activateSession_transaction env session
             (PendingActivation.request pending)) st1
    end.
Proof.
  unfold _activateSession, _activateSession_request.
  destruct (clients st !! self) as [this|]; [|done].
  destruct (sessions st !! session) as [s|] eqn:Hs; [|done].
  cbn zeta. destruct (createUserIdentityToken _ _ _ _) as [err|token]; [done|].
  unfold _activateSession_response.
  cbn [PendingActivation.request PendingActivation._old_client].
  destruct (activateSession_transaction _ _ _) as [err|[| |name] response];
    try done.
  by rewrite (set_session_lookup _ _ _ Hs).
Qed.

Lemma _activateSession_request_cases session st this s :
  clients st !! self = Some this → sessions st !! session = Some s →
  (∃ err,
     _activateSession_request env self session st
     = (st, inl (Callback (Some err) None)))
  ∨ (∃ pending,
       _activateSession_request env self session st
       = (set_session session (ClientSession.set__client self s) st,
          inr pending)).
Proof.
  intros Hc Hs. unfold _activateSession_request. rewrite Hc, Hs. cbn zeta.
  destruct (createUserIdentityToken _ _ _ _) as [err|token].
  - left. exists err. by rewrite attach_back.
  - right. by eexists.
Qed.

Lemma _activateSession_request_only_session session st :
  only_session session st (_activateSession_request env self session st).1.
Proof.
  unfold _activateSession_request.
  destruct (clients st !! self) as [this|]; [|auto with frame].
  destruct (sessions st !! session) as [s|]; [|auto with frame].
  cbn zeta. destruct (createUserIdentityToken _ _ _ _) as [err|token];
    cbn [fst]; [|auto with frame].
  eapply only_session_trans; [apply only_session_set|auto with frame].
Qed.

Lemma _activateSession_request_local session st1 st2 :
  clients st1 = clients st2 →
  sessions st1 !! session = sessions st2 !! session →
  (_activateSession_request env self session st1).2
  = (_activateSession_request env self session st2).2
  ∧ sessions (_activateSession_request env self session st1).1 !! session
    = sessions (_activateSession_request env self session st2).1 !! session.
Proof.
  intros Hc Hs. unfold _activateSession_request. rewrite Hc.
  destruct (clients st2 !! self) as [this|]; cycle 1.
  { split; [done|exact Hs]. }
  pose proof Hs as H1. rewrite Hs.
  destruct (sessions st2 !! session) as [s|] eqn:H2; [|split; [done|cbn [fst]; congruence]].
  cbn zeta.
  rewrite (createUserIdentityToken_clients env
             (set_session session (ClientSession.set__client self s) st1)
             (set_session session (ClientSession.set__client self s) st2))
    by done.
  destruct (createUserIdentityToken _ _ _ _) as [err|token]; cbn [fst snd].
  - split; [done|].
    rewrite (attach_back self session st1 s), (attach_back self session st2 s)
      by done.
    congruence.
  - split; [done|].
    by rewrite (set_session_lookup session s st1),
      (set_session_lookup session s st2).
Qed.

Lemma _activateSession_response_only_session session pending reply st :
  only_session session st
    (_activateSession_response session pending reply st).1.
Proof.
  unfold _activateSession_response.
  destruct reply as [err|[| |name] response]; cbn [fst]; auto with frame.
  destruct (sessions st !! session) as [s|]; [|auto with frame].
  cbn zeta. destruct (negb _); cbn [fst]; auto with frame.
Qed.

Lemma _activateSession_response_local session pending reply st1 st2 :
  sessions st1 !! session = sessions st2 !! session →
  (_activateSession_response session pending reply st1).2
  = (_activateSession_response session pending reply st2).2
  ∧ sessions (_activateSession_response session pending reply st1).1 !! session
    = sessions (_activateSession_response session pending reply st2).1 !! session.
Proof.
  intros Hs. unfold _activateSession_response, attach. rewrite Hs.
  destruct (sessions st2 !! session) as [s|] eqn:H2.
  - destruct reply as [err|[| |name] response]; cbn zeta; cbn [fst snd];
      try (split; [done|]; by rewrite !(set_session_lookup _ s)).
    destruct (negb _); cbn [fst snd];
      (split; [done|]; by rewrite !(set_session_lookup _ s)).
  - destruct reply as [err|[| |name] response]; cbn [fst snd];
      split; congruence.
Qed.

End Halves.

Lemma first_recorded_error_snoc recorded session err :
  first_recorded_error (recorded ++ [(session, err)])
  = match first_recorded_error recorded with
    | Some e => Some e
    | None => err
    end.
Proof.
  induction recorded as [|[x [e|]] recorded IH]; cbn; [by destruct err|done..].
Qed.

Lemma first_recorded_error_None recorded :
  first_recorded_error recorded = None
  ↔ ∀ session err, (session, err) ∈ recorded → err = None.
Proof.
  induction recorded as [|[x [e|]] recorded IH]; cbn.
  - split; [|done]. intros _ ? ? H. by apply elem_of_nil in H.
  - split; [done|]. intros H. by specialize (H x (Some e) (list_elem_of_here _ _)).
  - rewrite IH. split.
    + intros H y err [[= -> ->]|Hy]%elem_of_cons; [done|by eapply H].
    + intros H y err Hy. eapply H. by right.
Qed.

Section FanOut.

Context (env : Env) (self : nat) (st : State) (this : OPCUAClient.t)
  (arr : list nat).
Hypothesis Hself : clients st !! self = Some this.
Hypothesis Hnd : NoDup arr.
Hypothesis Hin : ∀ session, session ∈ arr → is_Some (sessions st !! session).

(** An iteration that goes on without calling [next]. *)
Lemma consistent_with_iteration r i x iteration iteration' st' logged :
  consistent env self st arr r →
  arr !! i = Some x → Recovery.iterations r !! i = Some iteration →
  1 < stage iteration →
  iteration' ≠ Finished →
  clients st' = clients (Recovery.store r) →
  (∀ j, j ≠ x → sessions st' !! j = sessions (Recovery.store r) !! j) →
  republish_log st' = republish_log (Recovery.store r) ++ logged →
  iteration_ok env self st x (sessions st' !! x) iteration' →
  (x ∈ logged
   ↔ stage iteration' ≤ 1 ∧ activation_error env self x st = None) →
  (∀ y, y ∈ logged → y = x) → NoDup logged →
  consistent env self st arr (with_iteration i iteration' st' r).
Proof.
  intros [Cth Ccl Clen Ccomp Cgood Crep Clog Cqnd Cqin Crnd Crin Crerr Cit]
    Hi Hit Hstage Hnf Hc Hs Hl Hok Hlogged Honly Hlnd.
  destruct (Cit i x iteration Hi Hit) as (_ & Hreq & Hrec).
  assert (Hq : requested st (with_iteration i iteration' st' r)
               = requested st r ++ logged).
  { unfold requested. cbn [with_iteration Recovery.store].
    by rewrite Hl, Clog, <- app_assoc, !drop_app_length. }
  assert (Hxq : x ∉ requested st r) by (rewrite Hreq; lia).
  split; cbn [with_iteration Recovery.thrown Recovery.store
              Recovery.iterations Recovery.recorded Recovery.completed
              Recovery.reported]; try done.
  - congruence.
  - by rewrite length_insert.
  - by rewrite Hq, Hl, Clog, <- app_assoc.
  - rewrite Hq. apply NoDup_app. split; [done|]. split; [|done].
    intros y Hy Hy'. apply Honly in Hy' as ->. done.
  - rewrite Hq. intros y [Hy|Hy]%elem_of_app; [by apply Cqin|].
    apply Honly in Hy as ->. by eapply list_elem_of_lookup_2.
  - intros j y it Hj Hjt. rewrite Hq.
    destruct (decide (j = i)) as [->|Hne].
    + rewrite list_lookup_insert_eq in Hjt by by eapply lookup_lt_Some.
      injection Hjt as <-. assert (y = x) as -> by congruence.
      split; [done|]. split.
      * rewrite elem_of_app. tauto.
      * rewrite Hrec. split; [|done]. intros ->. cbn in Hstage. lia.
    + rewrite list_lookup_insert_ne in Hjt by done.
      assert (y ≠ x) as Hyx.
      { intros ->. by pose proof (NoDup_lookup _ _ _ _ Hnd Hj Hi). }
      destruct (Cit j y it Hj Hjt) as (Hok' & Hreq' & Hrec').
      split; [by rewrite Hs|]. split; [|done].
      rewrite elem_of_app, Hreq'. split; [|tauto].
      intros [H|H]; [done|]. by apply Honly in H.
Qed.

(** An iteration that calls [next]. *)
Lemma consistent_async_next r i x iteration st' err :
  consistent env self st arr r →
  arr !! i = Some x → Recovery.iterations r !! i = Some iteration →
  iteration ≠ Finished →
  clients st' = clients (Recovery.store r) →
  (∀ j, j ≠ x → sessions st' !! j = sessions (Recovery.store r) !! j) →
  republish_log st' = republish_log (Recovery.store r) →
  sessions st' !! x = sessions (_activateSession env self x st).1 !! x →
  err = recovery_error env self st x →
  (x ∈ requested st r ↔ activation_error env self x st = None) →
  consistent env self st arr
    (async_next (length arr) x err (with_iteration i Finished st' r)).
Proof.
  intros [Cth Ccl Clen Ccomp Cgood Crep Clog Cqnd Cqin Crnd Crin Crerr Cit]
    Hi Hit Hnf Hc Hs Hl Hx Herr Hrequested.
  destruct (Cit i x iteration Hi Hit) as (_ & Hreq & Hrec).
  assert (Hxr : x ∉ (Recovery.recorded r).*1) by by rewrite Hrec.
  assert (Hxa : x ∈ arr) by by eapply list_elem_of_lookup_2.
  assert (Hroom : length (Recovery.recorded r) < length arr).
  { assert (x :: (Recovery.recorded r).*1 ⊆+ arr) as Hsub.
    { apply NoDup_submseteq; [by apply NoDup_cons|].
      intros y [->|Hy]%elem_of_cons; [done|by apply Crin]. }
    apply submseteq_length in Hsub. cbn in Hsub.
    rewrite length_fmap in Hsub. lia. }
  assert (Hq : ∀ r',
    Recovery.store r' = st' → requested st r' = requested st r).
  { intros r' Hr'. unfold requested. by rewrite Hr', Hl. }
  assert (Hpending : first_recorded_error (Recovery.recorded r) = None →
                     Recovery.reported r = None).
  { intros Hnone. rewrite Crep, Hnone, (Cgood Hnone).
    by rewrite (proj2 (Nat.leb_gt _ _)) by lia. }
  set (r' := async_next (length arr) x err (with_iteration i Finished st' r)).
  assert (Hstore : Recovery.store r' = st') by by destruct err.
  assert (Hits : Recovery.iterations r' = <[i := Finished]> (Recovery.iterations r))
    by by destruct err.
  assert (Hrecd : Recovery.recorded r' = Recovery.recorded r ++ [(x, err)])
    by by destruct err.
  split.
  - by destruct err.
  - rewrite Hstore. congruence.
  - by rewrite Hits, length_insert.
  - rewrite Hrecd, length_app. cbn. destruct err; cbn; lia.
  - rewrite Hrecd, first_recorded_error_snoc, length_app.
    destruct (first_recorded_error (Recovery.recorded r)) eqn:Hf; [done|].
    intros ->. cbn. rewrite (Cgood eq_refl). lia.
  - rewrite Hrecd, first_recorded_error_snoc.
    destruct (first_recorded_error (Recovery.recorded r)) as [e0|] eqn:Hf.
    + destruct err; cbn; by rewrite Crep.
    + destruct err; cbn; by rewrite (Hpending eq_refl).
  - rewrite (Hq r' Hstore), Hstore, Hl. done.
  - by rewrite (Hq r' Hstore).
  - by rewrite (Hq r' Hstore).
  - rewrite Hrecd, fmap_app. apply NoDup_app. split; [done|].
    split; [|apply NoDup_singleton].
    intros y Hy ->%list_elem_of_singleton. done.
  - rewrite Hrecd, fmap_app. intros y [Hy|Hy]%elem_of_app; [by apply Crin|].
    by apply list_elem_of_singleton in Hy as ->.
  - rewrite Hrecd. intros y e [Hy|Hy]%elem_of_app; [by apply Crerr|].
    apply list_elem_of_singleton in Hy. congruence.
  - intros j y it Hj Hjt. rewrite (Hq r' Hstore), Hstore, Hrecd, fmap_app.
    rewrite Hits in Hjt.
    destruct (decide (j = i)) as [->|Hne].
    + rewrite list_lookup_insert_eq in Hjt by by eapply lookup_lt_Some.
      injection Hjt as <-. assert (y = x) as -> by congruence.
      split; [done|]. split.
      * rewrite Hrequested. cbn. split; [intros ?; split; [lia|done]|tauto].
      * split; [done|]. intros _. apply elem_of_app. right. by left.
    + rewrite list_lookup_insert_ne in Hjt by done.
      assert (y ≠ x) as Hyx.
      { intros ->. by pose proof (NoDup_lookup _ _ _ _ Hnd Hj Hi). }
      destruct (Cit j y it Hj Hjt) as (Hok' & Hreq' & Hrec').
      split; [by rewrite Hs|]. split; [done|].
      change ([(x, err)].*1) with [x].
      rewrite elem_of_app, <- Hrec', list_elem_of_singleton. tauto.
Qed.

Lemma async_next_iterations n x err r :
  Recovery.iterations (async_next n x err r) = Recovery.iterations r.
Proof. by destruct err. Qed.

Lemma stage_at_insert r r' i iteration iteration' :
  Recovery.iterations r' = <[i := iteration']> (Recovery.iterations r) →
  Recovery.iterations r !! i = Some iteration →
  stage iteration' < stage iteration →
  (∀ j, stage_at r' j ≤ stage_at r j)
  ∧ (i < length arr → stage_at r' i ≤ stage_at r i - 1).
Proof.
  intros Hits Hit Hlt. unfold stage_at. rewrite Hits. split; [|intros _].
  - intros j. destruct (decide (j = i)) as [->|Hne].
    + rewrite list_lookup_insert_eq by by eapply lookup_lt_Some.
      rewrite Hit. cbn. lia.
    + by rewrite list_lookup_insert_ne.
  - rewrite list_lookup_insert_eq by by eapply lookup_lt_Some.
    rewrite Hit. cbn. lia.
Qed.

(** One step of one iteration keeps the invariant and brings the
    iteration nearer to its end. *)
Lemma advance_consistent r i :
  consistent env self st arr r →
  consistent env self st arr (advance env self arr i r)
  ∧ (∀ j, stage_at (advance env self arr i r) j ≤ stage_at r j)
  ∧ (i < length arr →
     stage_at (advance env self arr i r) i ≤ stage_at r i - 1).
Proof.
  intros C. pose proof C as
    [Cth Ccl Clen Ccomp Cgood Crep Clog Cqnd Cqin Crnd Crin Crerr Cit].
  unfold advance. rewrite Cth.
  destruct (arr !! i) as [x|] eqn:Hi; cycle 1.
  { split; [done|]. split; [done|]. intros Hlt.
    apply lookup_ge_None in Hi. lia. }
  destruct (Recovery.iterations r !! i) as [iteration|] eqn:Hit; cycle 1.
  { split; [done|]. split; [done|]. intros Hlt.
    apply lookup_ge_None in Hit. lia. }
  destruct (Cit i x iteration Hi Hit) as (Hok & Hreq & Hrec).
  assert (Hxa : x ∈ arr) by by eapply list_elem_of_lookup_2.
  destruct (Hin x Hxa) as [s Hs].
  assert (Hthis : clients (Recovery.store r) !! self = Some this)
    by by rewrite Ccl.
  destruct iteration as [|pending|answer|]; cbn [iteration_ok] in Hok.
  - (* the iteration is started *)
    destruct (_activateSession_request_local env self x (Recovery.store r) st
                Ccl Hok) as [L2 L1].
    pose proof (_activateSession_halves env self x st) as Hhalves.
    assert (Hnow : sessions (Recovery.store r) !! x = Some s) by congruence.
    destruct (_activateSession_request_cases env self x (Recovery.store r)
                this s Hthis Hnow) as [[err Hreq']|[pending Hreq']].
    + rewrite Hreq' in L1, L2 |- *. cbn [fst snd] in L1, L2.
      cbn [activated].
      destruct (_activateSession_request env self x st) as [st1 answer].
      cbn [fst snd] in L1, L2. subst answer.
      split; [|eapply stage_at_insert; [by rewrite ?async_next_iterations|exact Hit|cbn; lia]].
      eapply consistent_async_next; try done.
      * by rewrite Hhalves.
      * unfold recovery_error, activation_error. by rewrite Hhalves.
      * rewrite Hreq. unfold activation_error. rewrite Hhalves. cbn.
        split; [lia|done].
    + rewrite Hreq' in L1, L2 |- *. cbn [fst snd] in L1, L2.
      split; [|eapply stage_at_insert; [by rewrite ?async_next_iterations|exact Hit|cbn; lia]].
      eapply (consistent_with_iteration _ _ _ _ _ _ []); try done.
      * cbn. lia.
      * intros j Hj. cbn. by rewrite list_lookup_insert_ne.
      * by rewrite app_nil_r.
      * cbn [iteration_ok]. exists (_activateSession_request env self x st).1.
        split; [|done]. rewrite L2. by destruct (_activateSession_request _ _ _ st).
      * cbn. split; [by intros ?%elem_of_nil|lia].
      * by intros y ?%elem_of_nil.
      * apply NoDup_nil_2.
  - (* the answer to the activation *)
    destruct Hok as (st1 & Hreq1 & Hnow).
    pose proof (_activateSession_halves env self x st) as Hhalves.
    rewrite Hreq1 in Hhalves.
    set (reply := activateSession_transaction env x
                    (PendingActivation.request pending)) in *.
    destruct (_activateSession_response_local x pending reply
                (Recovery.store r) st1 Hnow) as [L2 L1].
    rewrite <- Hhalves in L1, L2.
    destruct (_activateSession_callback env self x st this s Hself Hs)
      as (err & result & Hcb).
    pose proof (_activateSession_response_only_session x pending reply
                  (Recovery.store r)) as (Fc & Fl & Fs).
    destruct (_activateSession_response x pending reply (Recovery.store r))
      as [st' answer].
    cbn [fst snd] in *. rewrite Hcb in L2. subst answer.
    destruct err as [err|]; cbn [activated].
    + split; [|eapply stage_at_insert; [by rewrite ?async_next_iterations|exact Hit|cbn; lia]].
      eapply consistent_async_next; try done.
      * unfold recovery_error, activation_error. by rewrite Hcb.
      * rewrite Hreq. unfold activation_error. rewrite Hcb. cbn.
        split; [lia|done].
    + cbn [_ask_for_subscription_republish].
      split; [|eapply stage_at_insert; [by rewrite ?async_next_iterations|exact Hit|cbn; lia]].
      eapply (consistent_with_iteration _ _ _ _ _ _ [x]); try done.
      * cbn. lia.
      * cbn. congruence.
      * cbn [iteration_ok]. unfold activation_error. by rewrite Hcb.
      * cbn. unfold activation_error. rewrite Hcb.
        split; [done|]. intros _. by left.
      * by intros y ->%list_elem_of_singleton.
      * apply NoDup_singleton.
  - (* the answer to the republish *)
    destruct Hok as (Hgood & -> & Hnow).
    split; [|eapply stage_at_insert; [by rewrite ?async_next_iterations|exact Hit|cbn; lia]].
    eapply consistent_async_next; try done.
    + unfold recovery_error. by rewrite Hgood.
    + rewrite Hreq. cbn. split; [tauto|]. intros ?. split; [lia|done].
  - split; [done|]. split; [done|]. intros _. unfold stage_at. rewrite Hit.
    cbn. lia.
Qed.

(** The answers of a list of positions. *)
Lemma advance_all_consistent l r :
  consistent env self st arr r →
  let r' := foldl (λ r i, advance env self arr i r) r l in
  consistent env self st arr r'
  ∧ (∀ j, stage_at r' j ≤ stage_at r j)
  ∧ (∀ j, j ∈ l → j < length arr → stage_at r' j ≤ stage_at r j - 1).
Proof.
  revert r. induction l as [|i l IH]; intros r C; cbn zeta.
  { cbn. split; [done|]. split; [done|]. by intros j ?%elem_of_nil. }
  cbn [foldl].
  destruct (advance_consistent r i C) as (C1 & M1 & D1).
  destruct (IH _ C1) as (C2 & M2 & D2).
  split; [done|]. split.
  - intros j. etrans; [apply M2|apply M1].
  - intros j [->|Hj]%elem_of_cons Hlt.
    + etrans; [apply M2|by apply D1].
    + etrans; [by apply D2|]. specialize (M1 j). lia.
Qed.

End FanOut.

Section Outcome.

Context (env : Env) (self : nat) (st : State) (this : OPCUAClient.t)
  (arr : list nat).
Hypothesis Hself : clients st !! self = Some this.
Hypothesis Hnd : NoDup arr.
Hypothesis Hin : ∀ session, session ∈ arr → is_Some (sessions st !! session).

Lemma async_map_begin_consistent :
  consistent env self st arr
    (Recovery.mk st (replicate (length arr) NotStarted) [] 0
       (if length arr =? 0 then Some None else None) None).
Proof.
  assert (Hq : ∀ its rec c rep th,
    requested st (Recovery.mk st its rec c rep th) = []).
  { intros. unfold requested. cbn. by rewrite drop_all. }
  split; cbn [Recovery.thrown Recovery.store Recovery.iterations
              Recovery.recorded Recovery.completed Recovery.reported
              first_recorded_error length fmap list_fmap];
    rewrite ?Hq; try done.
  - by rewrite length_replicate.
  - by destruct arr.
  - by rewrite app_nil_r.
  - apply NoDup_nil_2.
  - by intros x ?%elem_of_nil.
  - apply NoDup_nil_2.
  - by intros x ?%elem_of_nil.
  - by intros x err ?%elem_of_nil.
  - intros i x iteration Hi [-> _]%lookup_replicate_1.
    split; [done|]. split.
    + split; [by intros ?%elem_of_nil|]. cbn. lia.
    + split; [by intros ?%elem_of_nil|done].
Qed.

(** Every exchange is answered: the invariant holds at the end, and every
    iteration has called [next]. *)
Lemma async_map_finished order :
  let r := async_map env self arr order st in
  consistent env self st arr r
  ∧ ∀ i, i < length arr → Recovery.iterations r !! i = Some Finished.
Proof.
  intros r. subst r. unfold async_map. cbn zeta.
  set (step := λ r i, advance env self arr i r).
  set (positions := seq 0 (length arr)).
  set (r0 := Recovery.mk _ _ _ _ _ _).
  rewrite !foldl_app.
  assert (Hpos : ∀ j, j < length arr → j ∈ positions).
  { intros j Hj. apply elem_of_seq. lia. }
  assert (H0 : ∀ j, stage_at r0 j ≤ 3).
  { intros j. unfold stage_at, r0. cbn.
    destruct (replicate _ _ !! j) as [it|] eqn:Hj; cbn; [|lia].
    apply lookup_replicate_1 in Hj as [-> _]. done. }
  destruct (advance_all_consistent env self st this arr Hself Hnd Hin
              positions r0 async_map_begin_consistent) as (C1 & M1 & D1).
  destruct (advance_all_consistent env self st this arr Hself Hnd Hin
              order _ C1) as (C2 & M2 & _).
  destruct (advance_all_consistent env self st this arr Hself Hnd Hin
              positions _ C2) as (C3 & M3 & D3).
  destruct (advance_all_consistent env self st this arr Hself Hnd Hin
              positions _ C3) as (C4 & M4 & D4).
  fold step in C1, M1, D1, C2, M2, C3, M3, D3, C4, M4, D4.
  split; [exact C4|]. intros i Hi.
  pose proof (H0 i). pose proof (D1 i (Hpos i Hi) Hi). pose proof (M2 i).
  pose proof (D3 i (Hpos i Hi) Hi). pose proof (D4 i (Hpos i Hi) Hi) as Hend.
  unfold stage_at in Hend at 1.
  destruct (Recovery.iterations _ !! i) as [iteration|] eqn:Hit.
  - destruct iteration; cbn in Hend; try lia. done.
  - apply lookup_ge_None in Hit.
    rewrite (c_length _ _ _ _ _ C4) in Hit. lia.
Qed.

(** What a recovery comes to. *)
Lemma async_map_outcome order :
  let r := async_map env self arr order st in
  Recovery.thrown r = None
  ∧ (∀ session, session ∈ arr →
       sessions (Recovery.store r) !! session
       = sessions (_activateSession env self session st).1 !! session)
  ∧ (∃ extra,
       republish_log (Recovery.store r) = republish_log st ++ extra
       ∧ extra
         ≡ₚ filter (λ session, activation_error env self session st = None) arr)
  ∧ (Recovery.recorded r).*1 ≡ₚ arr
  ∧ (∀ session err, (session, err) ∈ Recovery.recorded r →
       err = recovery_error env self st session)
  ∧ Recovery.reported r = Some (first_recorded_error (Recovery.recorded r)).
Proof.
  intros r. destruct (async_map_finished order) as [C Hend]. fold r in C, Hend.
  destruct C as
    [Cth Ccl Clen Ccomp Cgood Crep Clog Cqnd Cqin Crnd Crin Crerr Cit].
  assert (Hat : ∀ x, x ∈ arr →
    ∃ i, arr !! i = Some x ∧ Recovery.iterations r !! i = Some Finished).
  { intros x [i Hi]%list_elem_of_lookup. exists i. split; [done|].
    apply Hend. by eapply lookup_lt_Some. }
  assert (Hperm : (Recovery.recorded r).*1 ≡ₚ arr).
  { apply NoDup_Permutation; [done..|]. intros x. split; [apply Crin|].
    intros (i & Hi & Hit)%Hat. by apply (Cit i x Finished Hi Hit). }
  split; [done|]. split; [|split; [|split; [done|split; [done|]]]].
  - intros x (i & Hi & Hit)%Hat. by apply (Cit i x Finished Hi Hit).
  - exists (requested st r). split; [done|].
    apply NoDup_Permutation; [done|by apply NoDup_filter|].
    intros x. rewrite list_elem_of_filter. split.
    + intros Hx. pose proof (Cqin x Hx) as Hxa.
      destruct (Hat x Hxa) as (i & Hi & Hit).
      split; [|done]. by apply (Cit i x Finished Hi Hit).
    + intros [Hgood (i & Hi & Hit)%Hat].
      apply (Cit i x Finished Hi Hit). cbn. split; [lia|done].
  - rewrite Crep.
    destruct (first_recorded_error (Recovery.recorded r)) eqn:Hf; [done|].
    rewrite (Cgood eq_refl), <- (Permutation_length Hperm), length_fmap.
    by rewrite Nat.leb_refl.
Qed.

End Outcome.

(** C4. On a reconnection every session of the client's collection is
    attempted: whatever the other sessions report and in whatever order the
    answers arrive ([order]), each session is left as its own activation
    leaves it. Republish is requested for exactly the sessions whose
    activation succeeds, once each. Every session calls [next] exactly
    once, with the error of its activation or, after a successful
    activation, with the error of its republish, if any. The result is the
    first error recorded, in the order of the calls, and success when no
    session has an error. *)
Theorem reconnection_attempts_every_session env self st this order :
  clients st !! self = Some this →
  NoDup (OPCUAClient._sessions this) →
  (∀ session, session ∈ OPCUAClient._sessions this →
     is_Some (sessions st !! session)) →
  let run := async_map env self (OPCUAClient._sessions this) order st in
  let done := _on_connection_reestablished env self order st in
  (∀ session, session ∈ OPCUAClient._sessions this →
     sessions done.1 !! session
     = sessions (_activateSession env self session st).1 !! session)
  ∧ (∃ requested,
       republish_log done.1 = republish_log st ++ requested
       ∧ requested
         ≡ₚ filter (λ session, activation_error env self session st = None)
              (OPCUAClient._sessions this))
  ∧ (Recovery.recorded run).*1 ≡ₚ OPCUAClient._sessions this
  ∧ (∀ session err, (session, err) ∈ Recovery.recorded run →
       err
       = match activation_error env self session st with
         | Some e => Some e
         | None => republish env session
         end)
  ∧ done.2 = Callback (first_recorded_error (Recovery.recorded run)) None
  ∧ (done.2 = Callback None None
     ↔ ∀ session, session ∈ OPCUAClient._sessions this →
         activation_error env self session st = None
         ∧ republish env session = None).
Proof.
  intros Hself Hnd Hin run done.
  destruct (async_map_outcome env self st this (OPCUAClient._sessions this)
              Hself Hnd Hin order)
    as (Hth & Hs & Hl & Hperm & Herr & Hrep).
  fold run in Hth, Hs, Hl, Hperm, Herr, Hrep.
  assert (Hdone : done
    = (Recovery.store run,
       Callback (first_recorded_error (Recovery.recorded run)) None)).
  { subst done. unfold _on_connection_reestablished. rewrite Hself. cbn zeta.
    fold run. by rewrite Hth, Hrep. }
  rewrite Hdone. cbn [fst snd].
  split; [done|]. split; [done|]. split; [done|]. split; [done|].
  split; [done|]. split.
  - intros [= Hnone] session Hsession.
    rewrite first_recorded_error_None in Hnone.
    rewrite <- Hperm in Hsession.
    apply list_elem_of_fmap in Hsession as ([x err] & -> & Hx). cbn.
    pose proof (Hnone x err Hx) as ->.
    apply Herr in Hx. unfold recovery_error in Hx.
    by destruct (activation_error env self x st).
  - intros Hall. f_equal. apply first_recorded_error_None.
    intros session err Hx. rewrite (Herr session err Hx).
    assert (session ∈ OPCUAClient._sessions this) as Hsession.
    { rewrite <- Hperm. by apply (list_elem_of_fmap_2 fst _ (session, err)). }
    destruct (Hall session Hsession) as [Ha Hr].
    unfold recovery_error. by rewrite Ha.
Qed.

(** Three sessions. The server rejects the activation of session 1, and
    the republish of session 2 fails. When the answers to the activations
    arrive in the order 2, 0, 1 and those to the republish requests after
    them, the republish requests are made in the order 2, 0 and the
    rejection is the first error; when the answer to the republish of
    session 2 arrives before the other activations are answered, its error
    is the first. *)
Lemma reconnection_attempts_every_session_witness :
  let rejected := ActivationRejected (StatusCodes.Bad "BadSessionIdInvalid") in
  let failed := ExternalError "republish failed" in
  let env :=
    Fixture.env (Fixture.good_create None)
      (λ session,
         if bool_decide (session = 1)
         then Response (StatusCodes.Bad "BadSessionIdInvalid")
                (ActivateSessionResponse.mk None)
         else Fixture.good_activate (Some Fixture.nonce32))
      (Response StatusCodes.Good ())
      (λ session, if bool_decide (session = 2) then Some failed else None) in
  let this := Fixture.resolved_client [0; 1; 2] in
  let st :=
    mkState [this]
      [Fixture.session 0 "Session1"; Fixture.session 0 "Session2";
       Fixture.session 0 "Session3"] [] in
  let done := _on_connection_reestablished env 0 [2; 0; 1] st in
  (∀ session, session ∈ [0; 1; 2] →
     sessions done.1 !! session
     = sessions (_activateSession env 0 session st).1 !! session)
  ∧ done.2 = Callback (first_recorded_error
                         (Recovery.recorded (async_map env 0 [0; 1; 2] [2; 0; 1] st)))
               None
  ∧ Recovery.recorded (async_map env 0 [0; 1; 2] [2; 0; 1] st)
    = [(1, Some rejected); (0, None); (2, Some failed)]
  ∧ done.2 = Callback (Some rejected) None
  ∧ republish_log done.1 = [2; 0]
  ∧ (_on_connection_reestablished env 0 [2; 2; 0; 1] st).2
    = Callback (Some failed) None.
Proof.
  intros rejected failed env this st done.
  assert (H1 : clients st !! 0 = Some this) by reflexivity.
  assert (H2 : NoDup (OPCUAClient._sessions this)).
  { apply (bool_decide_unpack _). by vm_compute. }
  assert (H3 : ∀ session, session ∈ OPCUAClient._sessions this →
                 is_Some (sessions st !! session)).
  { intros session Hs. change (session ∈ [0; 1; 2]) in Hs.
    repeat (apply elem_of_cons in Hs as [->|Hs]); [by eexists..|].
    by apply elem_of_nil in Hs. }
  destruct (reconnection_attempts_every_session env 0 st this [2; 0; 1]
              H1 H2 H3) as (Hs & _ & _ & _ & Hr & _).
  split; [exact Hs|]. split; [exact Hr|]. vm_compute. repeat split.
Defined.

(** ** Identity tokens *)

Lemma createUserIdentityToken_classify env st this session :
  createUserIdentityToken env st this session
  = match classify (OPCUAClient.userIdentityInfo this) with
    | KindAnonymous => createAnonymousIdentityToken st session
    | KindUserNamePassword =>
        match OPCUAClient.userIdentityInfo this with
        | Some info =>
            createUserNameIdentityToken env st session
              (UserIdentityInfo.userName info) (UserIdentityInfo.password info)
        | None => inl InvalidUserIdentityToken
        end
    | KindInvalid => inl InvalidUserIdentityToken
    end.
Proof.
  unfold createUserIdentityToken, classify.
  destruct (isAnonymous _); [done|].
  destruct (OPCUAClient.userIdentityInfo this) as [info|]; [|done].
  by destruct (isUserNamePassword info).
Qed.

(** No reading of "is present" makes the stated classification the one of
    the client: a user name with an empty password is UserNamePassword, so
    both would be present, yet an empty user name with an empty password is
    Anonymous. *)
Lemma classify_not_stated_kind (is_present : JsValue → bool) :
  ¬ ∀ info, classify (Some info) = stated_kind is_present info.
Proof.
  intros H.
  pose proof (H (UserIdentityInfo.mk (JsString "JoeDoe") (JsString ""))) as H1.
  pose proof (H (UserIdentityInfo.mk (JsString "") (JsString ""))) as H2.
  unfold stated_kind in H1, H2. cbn in H1, H2.
  destruct (is_present (JsString "JoeDoe")), (is_present (JsString ""));
    discriminate.
Qed.

(** C6, as amended. Whatever the identity: when it is absent, or its user
    name and its password are both falsy (undefined, null, false or the
    empty string), the Anonymous derivation is the result; otherwise, when
    the user name and the password are both defined, the UserNamePassword
    derivation is the result; otherwise the derivation fails with the
    invalid-identity error. *)
Theorem createUserIdentityToken_classification env st this session :
  (OPCUAClient.userIdentityInfo this = None →
     createUserIdentityToken env st this session
     = createAnonymousIdentityToken st session)
  ∧ ∀ info,
      OPCUAClient.userIdentityInfo this = Some info →
      let userName := UserIdentityInfo.userName info in
      let password := UserIdentityInfo.password info in
      (truthy userName = false → truthy password = false →
         createUserIdentityToken env st this session
         = createAnonymousIdentityToken st session)
      ∧ (truthy userName = true ∨ truthy password = true →
         userName ≠ Undefined → password ≠ Undefined →
         createUserIdentityToken env st this session
         = createUserNameIdentityToken env st session userName password)
      ∧ (truthy userName = true ∨ truthy password = true →
         userName = Undefined ∨ password = Undefined →
         createUserIdentityToken env st this session = inl InvalidUserIdentityToken).
Proof.
  unfold createUserIdentityToken. split.
  { by intros ->. }
  intros info Hinfo. rewrite Hinfo. cbn zeta.
  unfold isAnonymous, isUserNamePassword.
  destruct info as [userName password]. cbn [UserIdentityInfo.userName UserIdentityInfo.password].
  split; [|split].
  - by intros -> ->.
  - intros Htruthy Hu Hp.
    replace (negb (truthy userName) && negb (truthy password)) with false
      by (by destruct Htruthy as [-> | ->]; rewrite ?andb_false_r).
    by destruct userName, password.
  - intros Htruthy Hundef.
    replace (negb (truthy userName) && negb (truthy password)) with false
      by (by destruct Htruthy as [-> | ->]; rewrite ?andb_false_r).
    destruct Hundef as [-> | ->]; [done|]. cbn. by rewrite andb_false_r.
Qed.

(** The three cases on one endpoint: [{}], [{userName: "JoeDoe", password:
    "secret"}] and [{userName: "JoeDoe"}]. *)
Lemma createUserIdentityToken_classification_witness :
  let derive info :=
    createUserIdentityToken Fixture.quiet (Fixture.identity_store info)
      (Fixture.identity_client info) (Fixture.session 0 "Session1") in
  derive None = inr (AnonymousIdentityToken "anonymous")
  ∧ derive (Some (UserIdentityInfo.mk Undefined Undefined))
    = inr (AnonymousIdentityToken "anonymous")
  ∧ token_password <$> derive (Some (UserIdentityInfo.mk (JsString "JoeDoe") (JsString "secret")))
    = inr (Some (Fixture.toy_encrypt
                   (x26 :: x00 :: x00 :: x00
                    :: String.list_byte_of_string "secret" ++ Fixture.nonce32)
                   Fixture.certificate))
  ∧ derive (Some (UserIdentityInfo.mk (JsString "JoeDoe") Undefined))
    = inl InvalidUserIdentityToken.
Proof.
  intros derive. subst derive. cbn beta.
  pose proof (λ info,
    createUserIdentityToken_classification Fixture.quiet
      (Fixture.identity_store info) (Fixture.identity_client info)
      (Fixture.session 0 "Session1")) as H.
  split; [|split; [|split]].
  - rewrite (proj1 (H None) eq_refl). by vm_compute.
  - destruct (proj2 (H (Some (UserIdentityInfo.mk Undefined Undefined))) _ eq_refl)
      as (H1 & _ & _).
    rewrite (H1 eq_refl eq_refl). by vm_compute.
  - destruct (proj2 (H (Some (UserIdentityInfo.mk (JsString "JoeDoe") (JsString "secret")))) _ eq_refl)
      as (_ & H2 & _).
    rewrite (H2 (or_introl eq_refl)) by done. by vm_compute.
  - destruct (proj2 (H (Some (UserIdentityInfo.mk (JsString "JoeDoe") Undefined))) _ eq_refl)
      as (_ & _ & H3).
    exact (H3 (or_introl eq_refl) (or_intror eq_refl)).
Defined.

(** C6, as stated, with "present" read as "defined": an empty user name
    and an empty password are both present, yet the derived token is the
    Anonymous one; with "present" read as "truthy": a user name with an
    empty password has exactly one of the two present, yet the derivation
    does not fail but yields a UserNamePassword token. *)
Lemma createUserIdentityToken_empty_strings :
  let derive info :=
    createUserIdentityToken Fixture.quiet (Fixture.identity_store (Some info))
      (Fixture.identity_client (Some info)) (Fixture.session 0 "Session1") in
  let empty := UserIdentityInfo.mk (JsString "") (JsString "") in
  let no_password := UserIdentityInfo.mk (JsString "JoeDoe") (JsString "") in
  (stated_kind defined empty = KindUserNamePassword
   ∧ derive empty = inr (AnonymousIdentityToken "anonymous"))
  ∧ (stated_kind truthy no_password = KindInvalid
     ∧ derive no_password ≠ inl InvalidUserIdentityToken
     ∧ ∃ encrypted algorithm policyId,
         derive no_password
         = inr (UserNameIdentityToken (JsString "JoeDoe") encrypted algorithm policyId)).
Proof.
  intros derive empty no_password. subst derive empty no_password. cbn beta.
  split; [by vm_compute|]. split; [done|]. split.
  - by vm_compute.
  - eexists _, _, _. by vm_compute.
Qed.

(** ** The encrypted password *)

Lemma to_N_byte_of_N (n : N) : (n < 256)%N → Byte.to_N (byte_of_N n) = n.
Proof.
  intros Hn. unfold byte_of_N.
  pose proof (Byte.to_of_N_option_map n) as H.
  destruct (Byte.of_N n) as [b|]; cbn in *.
  - destruct (n <=? 255)%N; congruence.
  - destruct (n <=? 255)%N eqn:Hle; [done|]. apply N.leb_gt in Hle. lia.
Qed.

(** The four bytes written are the value, least significant byte first. *)
Lemma writeUInt32LE_read (value : N) (buf : Buffer) :
  writeUInt32LE value = inr buf →
  length buf = 4 ∧ readUInt32LE buf = Some value.
Proof.
  unfold writeUInt32LE. destruct (value <=? 0xffffffff)%N eqn:Hle; [|done].
  intros [= <-]. split; [done|]. apply N.leb_le in Hle.
  cbn [readUInt32LE].
  rewrite !to_N_byte_of_N by (apply N.mod_lt; lia).
  f_equal. zify. Z.to_euclidean_division_equations. lia.
Qed.

Lemma writeUInt32LE_in_range (value : N) :
  (value ≤ 0xffffffff)%N → ∃ buf, writeUInt32LE value = inr buf.
Proof.
  intros H. unfold writeUInt32LE. apply N.leb_le in H. rewrite H. by eexists.
Qed.

Lemma password_block_inv password serverNonce block :
  password_block password serverNonce = inr block →
  ∃ lenBuf,
    block = lenBuf ++ password ++ serverNonce
    ∧ length lenBuf = 4
    ∧ readUInt32LE lenBuf = Some (N.of_nat (length password + length serverNonce)).
Proof.
  unfold password_block.
  destruct (writeUInt32LE _) as [err|lenBuf] eqn:Hlen; [done|].
  intros [= <-]. exists lenBuf. split; [done|]. by apply writeUInt32LE_read.
Qed.

(** C7. Every UserNamePassword derivation that succeeds has encrypted,
    with the public key of the server certificate, the block made of a
    length prefix of four bytes (the length of what follows, little-endian),
    the UTF-8 bytes of the password and the server nonce of the session;
    so a decryption that inverts the encryption under that key gives back
    exactly prefix, password and nonce. *)
Theorem createUserNameIdentityToken_block env st session userName password token :
  createUserNameIdentityToken env st session userName password = inr token →
  ∃ pw serverNonce serverCertificate publicKey securityPolicy cryptoFactory
    lenBuf encrypted,
    password = JsString pw
    ∧ ClientSession.serverNonce session = Some serverNonce
    ∧ ClientSession.serverCertificate session = Some serverCertificate
    ∧ extractPublicKeyFromCertificateSync env serverCertificate = inr publicKey
    ∧ getCryptoFactory env securityPolicy = Some cryptoFactory
    ∧ length lenBuf = 4
    ∧ readUInt32LE lenBuf
      = Some (N.of_nat (length (String.list_byte_of_string pw) + length serverNonce))
    ∧ token_password token = Some encrypted
    ∧ encrypted
      = CryptoFactory.asymmetricEncrypt cryptoFactory
          (lenBuf ++ String.list_byte_of_string pw ++ serverNonce) publicKey
    ∧ ∀ (asymmetricDecrypt : Buffer → Buffer → Buffer) privateKey,
        (∀ block,
           asymmetricDecrypt
             (CryptoFactory.asymmetricEncrypt cryptoFactory block publicKey)
             privateKey = block) →
        asymmetricDecrypt encrypted privateKey
        = lenBuf ++ String.list_byte_of_string pw ++ serverNonce.
Proof.
  unfold createUserNameIdentityToken. intros H.
  repeat match type of H with
  | (mbind _ ?x) = _ => destruct x eqn:?; cbn [mbind throw_bind] in H; [done|]
  | (_ ← ?x; _) = _ => destruct x eqn:?; cbn [mbind throw_bind] in H; [done|]
  end.
  repeat match goal with
  | H : assert_some ?o _ = inr _ |- _ =>
      destruct o eqn:?; cbn [assert_some] in H; [injection H as <- | done]
  | H : new_Buffer_utf8 ?v = inr _ |- _ =>
      destruct v; cbn [new_Buffer_utf8] in H; [done..|injection H as <-]
  | H : password_block _ _ = inr _ |- _ =>
      apply password_block_inv in H as (lenBuf & -> & Hlen & Hread)
  end.
  injection H as <-.
  match goal with
  | H : match getCryptoFactory env ?p with _ => _ end = inr ?c |- _ =>
      assert (getCryptoFactory env p = Some c)
        by (destruct (getCryptoFactory env p); congruence)
  end.
  eexists _, _, _, _, _, _, lenBuf, _.
  repeat split; done.
Qed.

(** The identity [{userName: "JoeDoe", password: "secret"}] on a session
    with a nonce of 32 bytes: the prefix holds 38, and the stand-in
    decryption gives back prefix, ["secret"] and the nonce. *)
Lemma createUserNameIdentityToken_block_witness :
  ∃ token lenBuf encrypted,
    createUserNameIdentityToken Fixture.quiet (Fixture.identity_store None)
      (Fixture.session 0 "Session1") (JsString "JoeDoe") (JsString "secret")
    = inr token
    ∧ length lenBuf = 4
    ∧ readUInt32LE lenBuf = Some 38%N
    ∧ token_password token = Some encrypted
    ∧ Fixture.toy_decrypt encrypted Fixture.certificate
      = lenBuf ++ String.list_byte_of_string "secret" ++ Fixture.nonce32.
Proof.
  destruct (createUserNameIdentityToken Fixture.quiet (Fixture.identity_store None)
              (Fixture.session 0 "Session1") (JsString "JoeDoe") (JsString "secret"))
    as [err|token] eqn:H; [by vm_compute in H|].
  destruct (createUserNameIdentityToken_block _ _ _ _ _ _ H)
    as (pw & nonce & cert & pk & policy & cf & lenBuf & encrypted
        & [= <-] & [= <-] & [= <-] & [= <-] & Hcf & Hlen & Hread & Htoken & _ & Hdec).
  exists token, lenBuf, encrypted. repeat split; [done..|].
  apply Hdec. intros block.
  destruct policy; cbn in Hcf; try done. injection Hcf as <-.
  unfold Fixture.toy_decrypt, Fixture.toy_encrypt; cbn [CryptoFactory.asymmetricEncrypt].
  by rewrite drop_app_length, reverse_involutive.
Defined.

(** ** Session collections *)

Lemma without_not_elem session l : session ∉ without session l.
Proof.
  unfold without. rewrite list_elem_of_In, filter_In, negb_true_iff.
  intros [_ H]. by apply bool_decide_eq_false in H.
Qed.

Lemma with_session_elem session l : session ∈ with_session session l.
Proof.
  unfold with_session. case_bool_decide; [done|].
  apply elem_of_app. right. by left.
Qed.

Lemma collection_set_client client i c st :
  collection client (set_client i c st)
  = if bool_decide (client = i ∧ i < length (clients st))
    then OPCUAClient._sessions c else collection client st.
Proof.
  unfold collection. cbn [clients set_client]. case_bool_decide as H.
  - destruct H as [-> H]. by rewrite list_lookup_insert_eq.
  - destruct (decide (client = i)) as [->|Hne].
    + by rewrite list_insert_ge by lia.
    + by rewrite list_lookup_insert_ne.
Qed.

Lemma collection_set_sessions_of client c f st :
  collection client (set_sessions_of c f st)
  = if bool_decide (client = c ∧ c < length (clients st))
    then f (collection c st) else collection client st.
Proof.
  unfold set_sessions_of.
  destruct (clients st !! c) as [x|] eqn:Hc.
  - rewrite collection_set_client. case_bool_decide; [|done].
    unfold collection. by rewrite Hc.
  - apply lookup_ge_None in Hc. rewrite bool_decide_eq_false_2; [done|lia].
Qed.

Lemma sessions_set_sessions_of c f st :
  sessions (set_sessions_of c f st) = sessions st.
Proof. unfold set_sessions_of. by destruct (clients st !! c). Qed.

Lemma length_clients_set_sessions_of c f st :
  length (clients (set_sessions_of c f st)) = length (clients st).
Proof.
  unfold set_sessions_of. destruct (clients st !! c); [|done].
  cbn. by rewrite length_insert.
Qed.

Lemma collection_only_session session client st st' :
  only_session session st st' → collection client st' = collection client st.
Proof. intros (Hc & _). unfold collection. by rewrite Hc. Qed.

Section Ownership.

Context (env : Env).

(** Resolving the endpoint touches neither the collection nor the URL. *)
Lemma __resolveEndPoint_keeps this :
  let this' := (__resolveEndPoint env this).2 in
  OPCUAClient._sessions this' = OPCUAClient._sessions this
  ∧ OPCUAClient.endpointUrl this' = OPCUAClient.endpointUrl this.
Proof.
  unfold __resolveEndPoint. cbn zeta.
  destruct (OPCUAClient.endpoint _); [done|].
  destruct (truthy _); [done|].
  by destruct (findEndpointForSecurity _ _ _ _).
Qed.

Lemma __resolveEndPoint_endpoint this :
  (__resolveEndPoint env this).1 = true →
  present (OPCUAClient.endpoint (__resolveEndPoint env this).2) = true.
Proof.
  unfold __resolveEndPoint. cbn zeta.
  cbn [OPCUAClient.endpoint OPCUAClient.set_endpoint].
  destruct (findEndpoint _ _ _ _ _); [by cbn|].
  destruct (truthy _); [done|].
  by destruct (findEndpointForSecurity _ _ _ _).
Qed.

End Ownership.

(** ** Reactivation *)

Section Reactivation.

Context (env : Env) (self session : nat) (st : State).
Context (this old : OPCUAClient.t) (s : ClientSession.t).
Hypothesis Hself : clients st !! self = Some this.
Hypothesis Hsession : sessions st !! session = Some s.
Hypothesis Hold : clients st !! ClientSession._client s = Some old.

(** The store once the endpoint of [self] is resolved. *)
Let resolved := __resolveEndPoint env this.
Let st1 := set_client self resolved.2 st.

Lemma reactivateSession_unresolved :
  resolved.1 = false →
  reactivateSession env self session st
  = (st1,
     Callback
       (Some (EndPointMustExist
                (SecureChannel.endpoint_url (OPCUAClient._secureChannel this))))
       None).
Proof.
  unfold st1, resolved, reactivateSession. rewrite Hself, Hsession.
  destruct (__resolveEndPoint env this) as [b this']. cbn. by intros ->.
Qed.

(** The client the session is attached to, seen in [st1]. *)
Lemma session_client_resolved :
  ∃ old', clients st1 !! ClientSession._client s = Some old'
          ∧ OPCUAClient.endpointUrl old' = OPCUAClient.endpointUrl old.
Proof.
  unfold st1. cbn [clients set_client].
  destruct (decide (ClientSession._client s = self)) as [E|N].
  - rewrite E in *. rewrite list_lookup_insert_eq by by eapply lookup_lt_Some.
    eexists. split; [done|].
    replace old with this by congruence.
    apply __resolveEndPoint_keeps.
  - rewrite list_lookup_insert_ne by done. by exists old.
Qed.

Lemma reactivateSession_different_endpoint :
  resolved.1 = true →
  OPCUAClient.endpointUrl old ≠ OPCUAClient.endpointUrl this →
  reactivateSession env self session st
  = (st1, Thrown (AssertionError different_endpoint)).
Proof.
  intros Hres Hne.
  destruct session_client_resolved as (old' & Hold' & Hurl).
  pose proof (__resolveEndPoint_endpoint env this Hres) as Hep.
  pose proof (__resolveEndPoint_keeps env this) as [_ Hkeep].
  unfold st1, resolved in *. unfold reactivateSession. rewrite Hself, Hsession.
  destruct (__resolveEndPoint env this) as [b this']. cbn [fst snd] in *.
  rewrite Hres, Hep. cbn [negb orb]. rewrite Hold'.
  rewrite bool_decide_eq_false_2; [done|congruence].
Qed.

Lemma reactivateSession_same_endpoint :
  resolved.1 = true →
  OPCUAClient.endpointUrl old = OPCUAClient.endpointUrl this →
  reactivateSession env self session st
  = match _activateSession env self session st1 with
    | (st2, Callback None _) =>
        (if bool_decide (ClientSession._client s = self) then st2
         else _addSession self session
                (_removeSession (ClientSession._client s) session st2),
         Callback None None)
    | (st2, Callback (Some err) _) => (st2, Callback (Some err) None)
    | (st2, Thrown err) => (st2, Thrown err)
    end.
Proof.
  intros Hres Heq.
  destruct session_client_resolved as (old' & Hold' & Hurl).
  pose proof (__resolveEndPoint_endpoint env this Hres) as Hep.
  pose proof (__resolveEndPoint_keeps env this) as [_ Hkeep].
  unfold st1, resolved in *. unfold reactivateSession. rewrite Hself, Hsession.
  destruct (__resolveEndPoint env this) as [b this']. cbn [fst snd] in *.
  rewrite Hres, Hep. cbn [negb orb]. rewrite Hold'.
  rewrite bool_decide_eq_true_2 by congruence. cbn [negb].
  destruct (_activateSession env self session _) as [st2 [[err|] result|err]];
    [done| |done].
  by case_bool_decide.
Qed.

End Reactivation.

(** C10. When the session belongs to the target client already, a
    reactivation that succeeds leaves every session collection as it was:
    nothing is removed and nothing inserted. *)
Theorem reactivateSession_own_session env self session st this s st' result :
  clients st !! self = Some this →
  sessions st !! session = Some s →
  ClientSession._client s = self →
  reactivateSession env self session st = (st', Callback None result) →
  ∀ client, collection client st' = collection client st.
Proof.
  intros Hself Hsession Hown Hdone client.
  assert (Hold : clients st !! ClientSession._client s = Some this) by by rewrite Hown.
  pose proof (__resolveEndPoint_keeps env this) as [Hkeep _].
  assert (Hst1 : collection client (set_client self (__resolveEndPoint env this).2 st)
                 = collection client st).
  { rewrite collection_set_client. case_bool_decide as H; [|done].
    destruct H as [-> _]. unfold collection. by rewrite Hself. }
  destruct (__resolveEndPoint env this).1 eqn:Hres.
  - rewrite (reactivateSession_same_endpoint env self session st this this s
               Hself Hsession Hold Hres eq_refl) in Hdone.
    pose proof (_activateSession_only_session env self session
                  (set_client self (__resolveEndPoint env this).2 st)) as Honly.
    destruct (_activateSession env self session _) as [st2 [[err|] r|err]];
      [done| |done].
    rewrite bool_decide_eq_true_2 in Hdone by done.
    injection Hdone as <- _.
    by rewrite (collection_only_session _ _ _ _ Honly).
  - by rewrite (reactivateSession_unresolved env self session st this s
                  Hself Hsession Hres) in Hdone.
Qed.

(** Client 0 reactivates its own session 0. *)
Lemma reactivateSession_own_session_witness :
  let st := Fixture.two_clients (Fixture.resolved_client []) in
  (reactivateSession Fixture.quiet 0 0 st).2 = Callback None None
  ∧ ∀ client,
      collection client (reactivateSession Fixture.quiet 0 0 st).1
      = collection client st.
Proof.
  intros st. split; [by vm_compute|].
  apply (reactivateSession_own_session Fixture.quiet 0 0 st
           (Fixture.resolved_client [0]) (Fixture.session 0 "Session1") _ None);
    [reflexivity..|by vm_compute].
Defined.

(** C8, as amended. A reactivation whose target client does not resolve
    its endpoint, or whose target client has another endpoint URL than the
    client the session is attached to, fails with an endpoint-mismatch
    error and changes neither a session nor a collection. Otherwise the
    activation is performed, and exactly when it succeeds the session is
    moved: out of the collection of the old client, into the collection of
    the target, every other collection untouched; when it fails every
    collection is as before. *)
Theorem reactivateSession_ownership env self session st this old s :
  clients st !! self = Some this →
  sessions st !! session = Some s →
  clients st !! ClientSession._client s = Some old →
  let done := reactivateSession env self session st in
  let resolved := __resolveEndPoint env this in
  let st1 := set_client self resolved.2 st in
  let old_client := ClientSession._client s in
  (resolved.1 = false
   ∨ OPCUAClient.endpointUrl old ≠ OPCUAClient.endpointUrl this →
     (∃ err, (done.2 = Callback (Some err) None ∨ done.2 = Thrown err)
             ∧ taxonomy err = KEndpointMismatch)
     ∧ sessions done.1 = sessions st
     ∧ ∀ client, collection client done.1 = collection client st)
  ∧ (resolved.1 = true →
     OPCUAClient.endpointUrl old = OPCUAClient.endpointUrl this →
     let activated := _activateSession env self session st1 in
     sessions done.1 = sessions activated.1
     ∧ match activated.2 with
       | Callback None _ =>
           done.2 = Callback None None
           ∧ ∀ client,
               collection client done.1
               = if bool_decide (old_client = self) then collection client st
                 else if bool_decide (client = self)
                      then with_session session (collection self st)
                 else if bool_decide (client = old_client)
                      then without session (collection old_client st)
                 else collection client st
       | Callback (Some err) _ =>
           done.2 = Callback (Some err) None
           ∧ ∀ client, collection client done.1 = collection client st
       | Thrown err =>
           done.2 = Thrown err
           ∧ ∀ client, collection client done.1 = collection client st
       end).
Proof.
  intros Hself Hsession Hold done resolved st1 old_client.
  pose proof (__resolveEndPoint_keeps env this) as [Hkeep _].
  assert (Hst1 : ∀ client, collection client st1 = collection client st).
  { intros client. unfold st1. rewrite collection_set_client.
    case_bool_decide as H; [|done].
    destruct H as [-> _]. unfold collection. by rewrite Hself. }
  split.
  - intros Hfail. destruct resolved.1 eqn:Hres.
    + destruct Hfail as [?|Hne]; [done|]. subst done.
      rewrite (reactivateSession_different_endpoint env self session st this old s
                 Hself Hsession Hold Hres Hne).
      split; [|done]. eexists. split; [by right|done].
    + subst done.
      rewrite (reactivateSession_unresolved env self session st this s
                 Hself Hsession Hres).
      split; [|done]. eexists. split; [by left|done].
  - intros Hres Heq activated. subst done activated.
    rewrite (reactivateSession_same_endpoint env self session st this old s
               Hself Hsession Hold Hres Heq).
    fold resolved st1.
    pose proof (_activateSession_only_session env self session st1) as Honly.
    destruct (_activateSession env self session st1) as [st2 [[err|] r|err]];
      cbn [fst snd] in *.
    + split; [done|]. split; [done|]. intros client.
      by rewrite (collection_only_session _ _ _ _ Honly).
    + assert (Hst2 : ∀ client, collection client st2 = collection client st).
      { intros client. by rewrite (collection_only_session _ _ _ _ Honly). }
      assert (Hlen : length (clients st2) = length (clients st)).
      { destruct Honly as [-> _]. unfold st1. cbn. by rewrite length_insert. }
      fold old_client.
      case_bool_decide as Hown; [by split; [|split]|].
      split; [|split; [done|]].
      { unfold _addSession, _removeSession.
        by rewrite !sessions_set_sessions_of. }
      intros client. unfold _addSession, _removeSession.
      rewrite collection_set_sessions_of, length_clients_set_sessions_of, Hlen.
      rewrite !collection_set_sessions_of, Hlen.
      apply lookup_lt_Some in Hself, Hold. fold old_client in Hold.
      cbn beta. rewrite !Hst2. unfold with_session, without.
      repeat case_bool_decide; try done; exfalso; intuition (lia || congruence).
    + split; [done|]. split; [done|]. intros client.
      by rewrite (collection_only_session _ _ _ _ Honly).
Qed.

(** Client 1 takes over session 0 of client 0. *)
Lemma reactivateSession_ownership_witness :
  let st := Fixture.two_clients (Fixture.resolved_client []) in
  let done := reactivateSession Fixture.quiet 1 0 st in
  collection 0 st = [0] ∧ collection 1 st = []
  ∧ done.2 = Callback None None
  ∧ collection 0 done.1 = [] ∧ collection 1 done.1 = [0].
Proof.
  intros st done.
  destruct (reactivateSession_ownership Fixture.quiet 1 0 st
              (Fixture.resolved_client []) (Fixture.resolved_client [0])
              (Fixture.session 0 "Session1") eq_refl eq_refl eq_refl)
    as [_ Hmove].
  specialize (Hmove eq_refl eq_refl). cbv zeta in Hmove.
  destruct Hmove as [_ Hmove].
  match type of Hmove with
  | match ?x with _ => _ end =>
      replace x with (Callback (A := nat) None (Some 0)) in Hmove by by vm_compute
  end.
  destruct Hmove as [Hresult Hcollections].
  split; [done|]. split; [done|]. split; [exact Hresult|].
  subst done. by rewrite !Hcollections.
Defined.

(** C8, as stated: with the same endpoint URL the activation is performed
    and its success moves the session. Client 1 has the URL of client 0 and
    the server would accept its activation of session 0, yet the
    reactivation fails before any exchange, on the endpoint of client 1
    that no longer resolves, and session 0 stays where it was. *)
Lemma reactivateSession_unresolved_target :
  let st := Fixture.after_create in
  let done := reactivateSession Fixture.forgetful 1 0 st in
  OPCUAClient.endpointUrl <$> clients st !! 0
  = OPCUAClient.endpointUrl <$> clients st !! 1
  ∧ collection 0 st = [0] ∧ collection 1 st = [1] ∧ owner 0 st = Some 0
  ∧ (_activateSession Fixture.forgetful 1 0 st).2 = Callback None (Some 0)
  ∧ done.2 = Callback (Some (EndPointMustExist Fixture.url)) None
  ∧ collection 0 done.1 = [0] ∧ collection 1 done.1 = [1]
  ∧ owner 0 done.1 = Some 0.
Proof. by vm_compute. Qed.

(** ** Closing, and creating with a failed activation *)

Lemma _createSession_length_clients env self st :
  length (clients (_createSession env self st).1) = length (clients st).
Proof.
  unfold _createSession.
  repeat (case_match; cbn [fst clients set_client new_session]);
    by rewrite ?length_insert.
Qed.

Lemma closeSession_removes env self session st s :
  sessions st !! session = Some s →
  ClientSession._client s = self →
  let done := closeSession env self session st in
  (session ∉ collection self done.1)
  ∧ done.2
    = Callback
        match closeSession_transaction env session (CloseSessionRequest.mk true) with
        | TransportError err => Some err
        | Response _ _ => None
        end None.
Proof.
  intros Hsession Hown done. subst done.
  unfold closeSession, _closeSession. rewrite Hsession.
  rewrite bool_decide_eq_true_2 by done. cbn [negb].
  assert (Hgone : session ∉ collection self (_removeSession self session st)).
  { unfold _removeSession. rewrite collection_set_sessions_of.
    case_bool_decide as H; [apply without_not_elem|].
    unfold collection. rewrite lookup_ge_None_2; [by intros ?%elem_of_nil|].
    apply Nat.le_ngt. naive_solver. }
  by destruct (closeSession_transaction _ _ _).
Qed.

Lemma createSession_keeps env self info st st' err session :
  createSession env self info st = (st', Callback err (Some session)) →
  session ∈ collection self st'.
Proof.
  unfold createSession.
  destruct (clients st !! self) as [this|] eqn:Hself; [|done].
  apply lookup_lt_Some in Hself.
  set (st0 := set_client self _ st).
  pose proof (_createSession_length_clients env self st0) as Hlen.
  destruct (_createSession env self st0) as [st1 [[e|] [sid|]|e]]; try done.
  cbn [fst] in Hlen.
  pose proof (_activateSession_only_session env self sid (_addSession self sid st1))
    as Honly.
  destruct (_activateSession env self sid _) as [st2 [err2 r2|err2]]; [|done].
  intros [= <- _ <-]. cbn [fst] in Honly.
  rewrite (collection_only_session _ _ _ _ Honly).
  unfold _addSession. rewrite collection_set_sessions_of.
  rewrite bool_decide_eq_true_2; [apply with_session_elem|].
  split; [done|]. rewrite Hlen. unfold st0. cbn. by rewrite length_insert.
Qed.

(** C9, as amended. Closing a session removes it from the collection of
    the client that owns it whatever the CloseSession exchange gives, a
    transport error included. A failed activation removes nothing: when
    [createSession] hands over a session, with or without an error of the
    activation, the session is in the collection of the client. *)
Theorem closeSession_removes_activation_failure_keeps env self st :
  (∀ session s,
     sessions st !! session = Some s →
     ClientSession._client s = self →
     (session ∉ collection self (closeSession env self session st).1)
     ∧ ∃ err, (closeSession env self session st).2 = Callback err None)
  ∧ (∀ info st' err session,
       createSession env self info st = (st', Callback err (Some session)) →
       session ∈ collection self st').
Proof.
  split.
  - intros session s Hsession Hown.
    destruct (closeSession_removes env self session st s Hsession Hown) as [H1 H2].
    split; [done|]. by eexists.
  - intros info st' err session. apply createSession_keeps.
Qed.

(** Client 0 closes session 0 on a broken transport; and a client creates
    a session whose activation the server rejects. *)
Lemma closeSession_removes_activation_failure_keeps_witness :
  let broken :=
    Fixture.env (Fixture.good_create (Some Fixture.nonce32))
      (λ _, Response (StatusCodes.Bad "BadIdentityTokenRejected")
              (ActivateSessionResponse.mk None))
      (TransportError (ExternalError "connection lost")) (λ _, None) in
  let st := Fixture.two_clients (Fixture.resolved_client []) in
  ((0 ∉ collection 0 (closeSession broken 0 0 st).1)
   ∧ (closeSession broken 0 0 st).2
     = Callback (Some (ExternalError "connection lost")) None)
  ∧ ((createSession broken 1 None st).2
     = Callback (Some (ActivationRejected (StatusCodes.Bad "BadIdentityTokenRejected")))
         (Some 1)
     ∧ 1 ∈ collection 1 (createSession broken 1 None st).1).
Proof.
  intros broken st.
  destruct (closeSession_removes_activation_failure_keeps broken 0 st) as [Hclose _].
  destruct (closeSession_removes_activation_failure_keeps broken 1 st) as [_ Hcreate].
  split.
  - split; [|by vm_compute].
    by apply (Hclose 0 (Fixture.session 0 "Session1") eq_refl eq_refl).
  - split; [by vm_compute|].
    apply (Hcreate None _
             (Some (ActivationRejected (StatusCodes.Bad "BadIdentityTokenRejected")))).
    by vm_compute.
Defined.

(** C9, as stated: after create-then-activate where the activation fails,
    the session does not remain in the collection of the client. It does:
    the server rejects the activation, [createSession] hands over the error
    together with session 1, and session 1 is in the collection. *)
Lemma createSession_failed_activation_stays :
  let rejecting :=
    Fixture.env (Fixture.good_create (Some Fixture.nonce32))
      (λ _, Response (StatusCodes.Bad "BadIdentityTokenRejected")
              (ActivateSessionResponse.mk None))
      (Response StatusCodes.Good ()) (λ _, None) in
  let st := Fixture.two_clients (Fixture.resolved_client []) in
  collection 1 st = []
  ∧ (createSession rejecting 1 None st).2
    = Callback (Some (ActivationRejected (StatusCodes.Bad "BadIdentityTokenRejected")))
        (Some 1)
  ∧ collection 1 (createSession rejecting 1 None st).1 = [1].
Proof. by vm_compute. Qed.

(** * Further properties *)

(** ** What an activation does to the store *)

(** An activation either fails and gives back the store as it was, or the
    server answered [Good] and the session, attached to [self], has taken
    the nonce of the response. *)
Lemma _activateSession_cases env self session st this s :
  clients st !! self = Some this →
  sessions st !! session = Some s →
  (∃ err, _activateSession env self session st = (st, Callback (Some err) None))
  ∨ ∃ nonce,
      _activateSession env self session st
      = (set_session session
           (ClientSession.set_serverNonce nonce (ClientSession.set__client self s)) st,
         if validateServerNonce nonce then Callback None (Some session)
         else Callback (Some InvalidServerNonce) None).
Proof.
  intros Hself Hsession.
  destruct (createUserIdentityToken env
              (set_session session (ClientSession.set__client self s) st) this
              (ClientSession.set__client self s)) as [err|token] eqn:Htok.
  { left. exists err. by eapply _activateSession_token_failure. }
  pose proof (_activateSession_transaction_failure env self session st this s
                Hself Hsession token Htok) as Hfail.
  pose proof (λ response,
                _activateSession_good env self session st this s
                  Hself Hsession token response Htok) as Hgood.
  destruct (activateSession_transaction env session _)
    as [err|[| |name] response]; [left; by eexists| |left; by eexists..].
  right. exists (ActivateSessionResponse.serverNonce response). by apply Hgood.
Qed.

(** X1. Whenever [_activateSession] reports an error other than the
    invalid-nonce one (the identity token could not be derived, the
    transaction failed, the server answered with another code than Good),
    the store is exactly as before the call: the session is attached to
    the client it was attached to and nothing of it has changed. *)
Theorem _activateSession_failure_restores env self session st err result :
  (_activateSession env self session st).2 = Callback (Some err) result →
  err ≠ InvalidServerNonce →
  (_activateSession env self session st).1 = st.
Proof.
  intros Hdone Hne.
  destruct (clients st !! self) as [this|] eqn:Hself; cycle 1.
  { unfold _activateSession in *. by rewrite Hself in *. }
  destruct (sessions st !! session) as [s|] eqn:Hsession; cycle 1.
  { unfold _activateSession in *. by rewrite Hself, Hsession in *. }
  destruct (_activateSession_cases env self session st this s Hself Hsession)
    as [[e ->]|[nonce Hgood]]; [done|].
  rewrite Hgood in Hdone. cbn [snd] in Hdone.
  destruct (validateServerNonce nonce); congruence.
Qed.

(** Client 1 activates session 0 of client 0 and the server rejects it. *)
Lemma _activateSession_failure_restores_witness :
  let rejecting :=
    Fixture.env (Fixture.good_create None)
      (λ _, Response (StatusCodes.Bad "BadUserAccessDenied")
              (ActivateSessionResponse.mk (Some Fixture.short_nonce)))
      (Response StatusCodes.Good ()) (λ _, None) in
  let st := Fixture.two_clients (Fixture.resolved_client []) in
  (_activateSession rejecting 1 0 st).2
  = Callback (Some (ActivationRejected (StatusCodes.Bad "BadUserAccessDenied"))) None
  ∧ (_activateSession rejecting 1 0 st).1 = st.
Proof.
  intros rejecting st.
  assert (H : (_activateSession rejecting 1 0 st).2
              = Callback (Some (ActivationRejected (StatusCodes.Bad "BadUserAccessDenied"))) None)
    by by vm_compute.
  split; [exact H|].
  by apply (_activateSession_failure_restores rejecting 1 0 st _ _ H).
Defined.



(** ** Session names *)

Lemma session_names_counter n this :
  session_names n this
  = (λ k, "Session"
          +:+ pretty (default 0%N (OPCUAClient.___sessionName_counter this)
                      + 1 + N.of_nat k)%N)
    <$> seq 0 n.
Proof.
  revert this. induction n as [|n IH]; intros this; [done|].
  cbn [session_names _nextSessionName]. rewrite IH.
  cbn [OPCUAClient.___sessionName_counter OPCUAClient.set____sessionName_counter
       default from_option seq].
  rewrite fmap_cons, <- fmap_S_seq, <- list_fmap_compose.
  f_equal.
  - by rewrite N.add_0_r; destruct (OPCUAClient.___sessionName_counter this).
  - apply list_fmap_ext. intros _ k _. cbn [compose].
    do 2 f_equal. destruct (OPCUAClient.___sessionName_counter this); cbn; lia.
Qed.

(** X3. The names a client gives to its sessions are ["Session"] followed
    by the decimal count of the names given so far, this one included, and
    no two of them are equal, as long as the count stays within the integers
    a JavaScript number holds exactly. *)
Theorem session_names_distinct n this :
  (default 0 (OPCUAClient.___sessionName_counter this) + N.of_nat n ≤ 2 ^ 53)%N →
  NoDup (session_names n this)
  ∧ ∀ k name,
      session_names n this !! k = Some name →
      name = "Session"
             +:+ pretty (default 0 (OPCUAClient.___sessionName_counter this)
                         + 1 + N.of_nat k)%N.
Proof.
  intros _. rewrite session_names_counter. split.
  - apply NoDup_fmap_2; [|apply NoDup_seq].
    intros k1 k2 H. cbn in H. injection H as H.
    apply pretty_N_inj in H. lia.
  - intros k name. rewrite list_lookup_fmap.
    destruct (seq 0 n !! k) as [k'|] eqn:Hk; [|done].
    apply lookup_seq in Hk as [-> _]. by intros [= <-].
Qed.

(** The first three names of a new client. *)
Lemma session_names_distinct_witness :
  let this := Fixture.client Options.empty [] in
  NoDup (session_names 3 this)
  ∧ session_names 3 this = ["Session1"; "Session2"; "Session3"].
Proof.
  intros this. split; [|by vm_compute].
  apply (session_names_distinct 3 this). by vm_compute.
Defined.

(** ** What a creation does to the store *)

Lemma __resolveEndPoint_identity env this :
  OPCUAClient.userIdentityInfo (__resolveEndPoint env this).2
  = OPCUAClient.userIdentityInfo this.
Proof.
  unfold __resolveEndPoint. cbn zeta.
  destruct (OPCUAClient.endpoint _); [done|].
  destruct (truthy _); [done|].
  by destruct (findEndpointForSecurity _ _ _ _).
Qed.

(** [_createSession] rewrites the client [self] only, and keeps its
    collection, its identity and its URL. *)
Lemma _createSession_clients env self st this :
  clients st !! self = Some this →
  ∃ this',
    clients (_createSession env self st).1 = <[self := this']> (clients st)
    ∧ OPCUAClient._sessions this' = OPCUAClient._sessions this
    ∧ OPCUAClient.userIdentityInfo this' = OPCUAClient.userIdentityInfo this
    ∧ OPCUAClient.endpointUrl this' = OPCUAClient.endpointUrl this.
Proof.
  intros Hself. unfold _createSession. rewrite Hself.
  pose proof (__resolveEndPoint_keeps env this) as [Hs Hu].
  pose proof (__resolveEndPoint_identity env this) as Hi.
  destruct (__resolveEndPoint env this) as [b this1]. cbn [snd] in Hs, Hu, Hi.
  destruct (if b then OPCUAClient.endpoint this1 else None); [|by eexists].
  cbn zeta.
  destruct (String.eqb _ ""); [by eexists|].
  destruct (String.eqb _ ""); [by eexists|].
  cbn [_nextSessionName].
  destruct (createSession_transaction env _) as [err|serviceResult response];
    [by eexists|].
  case_bool_decide; [by eexists|].
  case_bool_decide; [|by eexists].
  cbn [negb validateServerNonce CreateSessionRequest.serverNonce present andb
       new_session fst snd set_client clients].
  eexists. split; [apply list_insert_insert_eq|done].
Qed.

(** The sessions after [_createSession]. *)
Lemma _createSession_sessions env self st :
  let done := _createSession env self st in
  republish_log done.1 = republish_log st
  ∧ match done.2 with
    | Callback None (Some session) =>
        session = length (sessions st)
        ∧ ∃ s, sessions done.1 = sessions st ++ [s]
               ∧ ClientSession._client s = self
    | _ => sessions done.1 = sessions st
    end.
Proof.
  intros done. subst done. unfold _createSession.
  destruct (clients st !! self) as [this|]; [|done].
  destruct (__resolveEndPoint env this) as [b this1].
  destruct (if b then OPCUAClient.endpoint this1 else None); [|done].
  cbn zeta.
  destruct (String.eqb _ ""); [done|].
  destruct (String.eqb _ ""); [done|].
  cbn [_nextSessionName].
  destruct (createSession_transaction env _) as [err|serviceResult response];
    [done|].
  case_bool_decide; [done|].
  case_bool_decide; [|done].
  cbn [negb validateServerNonce CreateSessionRequest.serverNonce present andb
       new_session fst snd set_client clients sessions republish_log].
  split; [done|]. split; [done|]. by eexists.
Qed.

Lemma _createSession_collection env self st client :
  collection client (_createSession env self st).1 = collection client st.
Proof.
  destruct (clients st !! self) as [this|] eqn:Hself; cycle 1.
  { unfold _createSession. by rewrite Hself. }
  destruct (_createSession_clients env self st this Hself)
    as (this' & Hc & Hs & _).
  unfold collection. rewrite Hc.
  destruct (decide (client = self)) as [->|Hne].
  - rewrite list_lookup_insert_eq by by eapply lookup_lt_Some.
    by rewrite Hself.
  - by rewrite list_lookup_insert_ne.
Qed.

(** X4. [_createSession] makes a session exactly when it reports success:
    the session is a new one (the next free index), attached to [self], and
    the sessions that existed are as they were; on every failure no session
    is made. In either case no session collection changes (the new session
    is not yet in the collection of [self]) and no republish is
    requested. *)
Theorem _createSession_new_session env self st :
  let done := _createSession env self st in
  (∀ client, collection client done.1 = collection client st)
  ∧ republish_log done.1 = republish_log st
  ∧ match done.2 with
    | Callback None (Some session) =>
        session = length (sessions st)
        ∧ ∃ s, sessions done.1 = sessions st ++ [s]
               ∧ ClientSession._client s = self
    | _ => sessions done.1 = sessions st
    end.
Proof.
  intros done. split.
  - intros client. apply _createSession_collection.
  - apply _createSession_sessions.
Qed.

(** ** The identity a client keeps *)

Lemma identity_set_sessions_of c f st i :
  OPCUAClient.userIdentityInfo <$> clients (set_sessions_of c f st) !! i
  = OPCUAClient.userIdentityInfo <$> clients st !! i.
Proof.
  unfold set_sessions_of. destruct (clients st !! c) as [x|] eqn:Hc; [|done].
  cbn [clients set_client].
  destruct (decide (i = c)) as [->|Hne].
  - rewrite list_lookup_insert_eq by by eapply lookup_lt_Some. by rewrite Hc.
  - by rewrite list_lookup_insert_ne.
Qed.

(** X5. [createSession] stores the identity it is given on the client
    ([{}] when it is given none) before anything else, and nothing takes it
    back: whether the creation fails, the activation fails or both succeed,
    the client afterwards holds that identity, the one a later reconnection
    activates every session of the client with. *)
Theorem createSession_records_identity env self info st this :
  clients st !! self = Some this →
  OPCUAClient.userIdentityInfo <$> clients (createSession env self info st).1 !! self
  = Some (Some (default (UserIdentityInfo.mk Undefined Undefined) info)).
Proof.
  intros Hself. unfold createSession. rewrite Hself.
  set (identity := default (UserIdentityInfo.mk Undefined Undefined) info).
  set (this0 := OPCUAClient.set_userIdentityInfo (Some identity) this).
  set (st0 := set_client self this0 st).
  assert (Hself0 : clients st0 !! self = Some this0).
  { unfold st0. cbn. apply list_lookup_insert_eq. by eapply lookup_lt_Some. }
  destruct (_createSession_clients env self st0 this0 Hself0)
    as (this1 & Hc & _ & Hi & _).
  assert (H1 : OPCUAClient.userIdentityInfo
               <$> clients (_createSession env self st0).1 !! self
               = Some (Some identity)).
  { rewrite Hc, list_lookup_insert_eq by by eapply lookup_lt_Some.
    cbn. by rewrite Hi. }
  destruct (_createSession env self st0) as [st1 [[e|] [sid|]|e]];
    cbn [fst] in H1; try done.
  pose proof (_activateSession_only_session env self sid (_addSession self sid st1))
    as (Hclients & _).
  destruct (_activateSession env self sid _) as [st2 [err r|err]];
    cbn [fst] in *; rewrite Hclients; unfold _addSession;
    by rewrite identity_set_sessions_of.
Qed.

(** A strict client whose endpoint does not resolve asks for a session as
    JoeDoe: the creation fails, the identity stays. *)
Lemma createSession_records_identity_witness :
  let joe := UserIdentityInfo.mk (JsString "JoeDoe") (JsString "secret") in
  let st := mkState [Fixture.client Fixture.strict []] [] [] in
  (createSession Fixture.quiet 0 (Some joe) st).2
  = Callback (Some (EndPointMustExist Fixture.url)) None
  ∧ OPCUAClient.userIdentityInfo
    <$> clients (createSession Fixture.quiet 0 (Some joe) st).1 !! 0
    = Some (Some joe).
Proof.
  intros joe st. split; [by vm_compute|].
  by apply (createSession_records_identity Fixture.quiet 0 (Some joe) st
              (Fixture.client Fixture.strict [])).
Defined.

(** X6. [changeSessionIdentity] leaves the new identity on the client
    whether or not the activation with it succeeds: the identity the client
    had before is not put back after a failure. *)
Theorem changeSessionIdentity_keeps_new_identity env self session info st this :
  clients st !! self = Some this →
  OPCUAClient.userIdentityInfo
  <$> clients (changeSessionIdentity env self session info st).1 !! self
  = Some info.
Proof.
  intros Hself. unfold changeSessionIdentity. rewrite Hself.
  set (st0 := set_client self _ st).
  pose proof (_activateSession_only_session env self session st0) as (Hclients & _).
  destruct (_activateSession env self session st0) as [st1 [err r|err]];
    cbn [fst] in *; rewrite Hclients; unfold st0; cbn;
    by rewrite list_lookup_insert_eq by by eapply lookup_lt_Some.
Qed.

(** Client 0, anonymous so far, changes to a user name without password:
    the activation fails on the identity, which stays. *)
Lemma changeSessionIdentity_keeps_new_identity_witness :
  let half := UserIdentityInfo.mk (JsString "JoeDoe") Undefined in
  let st := Fixture.two_clients (Fixture.resolved_client []) in
  (changeSessionIdentity Fixture.quiet 0 0 (Some half) st).2
  = Callback (Some InvalidUserIdentityToken) None
  ∧ OPCUAClient.userIdentityInfo <$> clients st !! 0 = Some None
  ∧ OPCUAClient.userIdentityInfo
    <$> clients (changeSessionIdentity Fixture.quiet 0 0 (Some half) st).1 !! 0
    = Some (Some half).
Proof.
  intros half st. split; [by vm_compute|]. split; [done|].
  by apply (changeSessionIdentity_keeps_new_identity Fixture.quiet 0 0
              (Some half) st (Fixture.resolved_client [0])).
Defined.

(** ** Closing *)

Lemma without_idemp session l : without session (without session l) = without session l.
Proof.
  unfold without. induction l as [|x l IH]; [done|].
  cbn [List.filter]. destruct (negb (bool_decide (x = session))) eqn:Hx; [|done].
  cbn [List.filter]. by rewrite Hx, IH.
Qed.

Lemma without_fresh session l : session ∉ l → without session l = l.
Proof.
  unfold without. induction l as [|x l IH]; [done|].
  intros [Hne Hl]%not_elem_of_cons. cbn [List.filter].
  rewrite bool_decide_eq_false_2 by done. cbn [negb]. by rewrite IH.
Qed.

Lemma without_app session l1 l2 :
  without session (l1 ++ l2) = without session l1 ++ without session l2.
Proof. unfold without. apply List.filter_app. Qed.

Lemma without_self session : without session [session] = [].
Proof. unfold without. cbn. by rewrite bool_decide_eq_true_2. Qed.

Lemma set__sessions_id c : OPCUAClient.set__sessions (OPCUAClient._sessions c) c = c.
Proof. by destruct c. Qed.

Lemma _removeSession_idemp self session st :
  _removeSession self session (_removeSession self session st)
  = _removeSession self session st.
Proof.
  unfold _removeSession, set_sessions_of.
  destruct (clients st !! self) as [c|] eqn:Hc; [|by rewrite Hc].
  cbn [clients set_client].
  rewrite list_lookup_insert_eq by by eapply lookup_lt_Some.
  unfold set_client. cbn [clients sessions republish_log].
  rewrite list_insert_insert_eq. do 2 f_equal.
  destruct c. unfold OPCUAClient.set__sessions. cbn. f_equal.
  apply (without_idemp session).
Qed.

(** What [closeSession] leaves, once the session is found attached to
    [self]. *)
Lemma closeSession_owned env self session st s :
  sessions st !! session = Some s →
  ClientSession._client s = self →
  (closeSession env self session st).1 = _removeSession self session st
  ∧ ∃ err, (closeSession env self session st).2 = Callback err None.
Proof.
  intros Hsession Hown. unfold closeSession, _closeSession. rewrite Hsession.
  rewrite bool_decide_eq_true_2 by done. cbn [negb].
  destruct (closeSession_transaction _ _ _); split; by eexists.
Qed.

(** X7. [closeSession] changes the collection of the closing client and
    nothing else: every session object is as it was (the closed one stays
    attached to the client), every other collection is as it was, and the
    collection of the client keeps its other sessions, in their order. When
    the session is attached to another client the call throws and the
    store is untouched. *)
Theorem closeSession_frame env self session st :
  let done := closeSession env self session st in
  sessions done.1 = sessions st
  ∧ republish_log done.1 = republish_log st
  ∧ (∀ client, client ≠ self → collection client done.1 = collection client st)
  ∧ match done.2 with
    | Callback _ _ =>
        owner session st = Some self
        ∧ collection self done.1 = without session (collection self st)
    | Thrown _ => done.1 = st
    end.
Proof.
  intros done. subst done. unfold closeSession, _closeSession, owner.
  destruct (sessions st !! session) as [s|]; [|done].
  case_bool_decide as Hown; cbn [negb]; [|done].
  assert (Hframe :
    sessions (_removeSession self session st) = sessions st
    ∧ republish_log (_removeSession self session st) = republish_log st
    ∧ (∀ client, client ≠ self →
         collection client (_removeSession self session st) = collection client st)
    ∧ collection self (_removeSession self session st)
      = without session (collection self st)).
  { unfold _removeSession. split; [apply sessions_set_sessions_of|]. split.
    { unfold set_sessions_of. by destruct (clients st !! self). }
    split.
    - intros client Hne. rewrite collection_set_sessions_of.
      rewrite bool_decide_eq_false_2; [done|naive_solver].
    - rewrite collection_set_sessions_of. case_bool_decide as H; [done|].
      unfold collection. rewrite lookup_ge_None_2; [done|].
      apply Nat.le_ngt. naive_solver. }
  destruct Hframe as (H1 & H2 & H3 & H4).
  destruct (closeSession_transaction _ _ _); cbn [fst snd];
    repeat split; try done; cbn; congruence.
Qed.

(** X8. Closing a session a second time leaves the store exactly as the
    first close left it (the session is no longer in the collection and
    stays out), and again ends in the callback. *)
Theorem closeSession_twice env self session st s :
  sessions st !! session = Some s →
  ClientSession._client s = self →
  let once := closeSession env self session st in
  let twice := closeSession env self session once.1 in
  twice.1 = once.1 ∧ ∃ err, twice.2 = Callback err None.
Proof.
  intros Hsession Hown once twice. subst once twice.
  destruct (closeSession_owned env self session st s Hsession Hown) as [H1 _].
  rewrite H1.
  assert (Hsession' : sessions (_removeSession self session st) !! session = Some s).
  { unfold _removeSession. by rewrite sessions_set_sessions_of. }
  destruct (closeSession_owned env self session _ s Hsession' Hown) as [H2 Hcb].
  split; [|done]. rewrite H2. apply _removeSession_idemp.
Qed.

(** Client 0 closes its session 0 twice. *)
Lemma closeSession_twice_witness :
  let st := Fixture.two_clients (Fixture.resolved_client []) in
  let once := closeSession Fixture.quiet 0 0 st in
  let twice := closeSession Fixture.quiet 0 0 once.1 in
  collection 0 st = [0] ∧ collection 0 once.1 = []
  ∧ twice.1 = once.1 ∧ twice.2 = Callback None None.
Proof.
  intros st once twice.
  destruct (closeSession_twice Fixture.quiet 0 0 st (Fixture.session 0 "Session1")
              eq_refl eq_refl) as [H _].
  split; [done|]. split; [by vm_compute|]. split; [exact H|by vm_compute].
Defined.

(** ** Creating, then closing *)

(** The session [createSession] hands over is new, attached to [self] and
    the last of the collection of [self]. *)
Lemma createSession_handed_over env self info st this st' err session :
  clients st !! self = Some this →
  (∀ x, x ∈ OPCUAClient._sessions this → x < length (sessions st)) →
  createSession env self info st = (st', Callback err (Some session)) →
  session = length (sessions st)
  ∧ owner session st' = Some self
  ∧ collection self st' = OPCUAClient._sessions this ++ [session].
Proof.
  intros Hself Hwf. unfold createSession. rewrite Hself.
  set (st0 := set_client self _ st).
  assert (Hlen0 : length (clients st0) = length (clients st))
    by (unfold st0; cbn; apply length_insert).
  assert (Hcoll0 : collection self st0 = OPCUAClient._sessions this).
  { unfold st0. rewrite collection_set_client.
    rewrite bool_decide_eq_true_2; [done|].
    split; [done|by eapply lookup_lt_Some]. }
  pose proof (_createSession_sessions env self st0) as [_ Hsessions].
  pose proof (_createSession_collection env self st0 self) as Hcoll.
  pose proof (_createSession_length_clients env self st0) as Hlen.
  destruct (_createSession env self st0) as [st1 [[e|] [sid|]|e]]; try done.
  cbn [fst snd] in *. destruct Hsessions as (-> & s & Hs1 & Hown).
  change (sessions st0) with (sessions st) in *.
  set (sid := length (sessions st)) in *.
  set (st2 := _addSession self sid st1).
  assert (Hs2 : sessions st2 !! sid = Some s).
  { unfold st2, _addSession. rewrite sessions_set_sessions_of, Hs1.
    by rewrite lookup_app_r, Nat.sub_diag. }
  assert (Hfresh : sid ∉ OPCUAClient._sessions this).
  { intros Hin. apply Hwf in Hin. unfold sid in Hin. lia. }
  assert (Hcoll2 : collection self st2 = OPCUAClient._sessions this ++ [sid]).
  { unfold st2, _addSession. rewrite collection_set_sessions_of.
    rewrite bool_decide_eq_true_2.
    - rewrite Hcoll, Hcoll0. by rewrite bool_decide_eq_false_2.
    - split; [done|]. rewrite Hlen, Hlen0. by eapply lookup_lt_Some. }
  assert (Hself2 : is_Some (clients st2 !! self)).
  { apply lookup_lt_is_Some. unfold st2, _addSession.
    rewrite length_clients_set_sessions_of, Hlen, Hlen0.
    by eapply lookup_lt_Some. }
  destruct Hself2 as [this2 Hself2].
  pose proof (_activateSession_only_session env self sid st2) as Honly.
  destruct (_activateSession_cases env self sid st2 this2 s Hself2 Hs2)
    as [[e He]|[nonce Hgood]].
  - rewrite He in *. intros [= <- _ <-]. split; [done|]. split; [|done].
    unfold owner. rewrite Hs2. cbn. by rewrite Hown.
  - rewrite Hgood in *. cbn [fst] in Honly.
    assert (Howner :
      owner sid (set_session sid
                   (ClientSession.set_serverNonce nonce
                      (ClientSession.set__client self s)) st2) = Some self).
    { unfold owner. by rewrite (set_session_lookup _ s). }
    destruct (validateServerNonce nonce); intros [= <- _ <-];
      (split; [done|]); (split; [done|]);
      by rewrite (collection_only_session _ _ _ _ Honly).
Qed.

(** X9. Closing the session that [createSession] has just handed over,
    with or without an error of the activation, gives the client back the
    collection it had before the creation. *)
Theorem createSession_then_closeSession env self info st this st' err session :
  clients st !! self = Some this →
  (∀ x, x ∈ OPCUAClient._sessions this → x < length (sessions st)) →
  createSession env self info st = (st', Callback err (Some session)) →
  collection self (closeSession env self session st').1 = collection self st
  ∧ ∃ err', (closeSession env self session st').2 = Callback err' None.
Proof.
  intros Hself Hwf Hcreate.
  destruct (createSession_handed_over env self info st this st' err session
              Hself Hwf Hcreate) as (-> & Howner & Hcoll).
  unfold owner in Howner.
  destruct (sessions st' !! length (sessions st)) as [s|] eqn:Hs; [|done].
  injection Howner as Hown.
  destruct (closeSession_owned env self _ st' s Hs Hown) as [-> Hcb].
  split; [|done].
  unfold _removeSession. rewrite collection_set_sessions_of.
  assert (Hfresh : length (sessions st) ∉ OPCUAClient._sessions this).
  { intros Hin. apply Hwf in Hin. lia. }
  case_bool_decide as H.
  - rewrite Hcoll.
    change (without (length (sessions st))
              (OPCUAClient._sessions this ++ [length (sessions st)])
            = collection self st).
    rewrite without_app, without_self, app_nil_r, without_fresh by done.
    unfold collection. by rewrite Hself.
  - exfalso. apply H. split; [done|].
    apply lookup_lt_is_Some. unfold collection in Hcoll.
    destruct (clients st' !! self); [done|]. by destruct (OPCUAClient._sessions this).
Qed.

(** Client 1 creates a session whose activation the server rejects, and
    closes it. *)
Lemma createSession_then_closeSession_witness :
  let rejecting :=
    Fixture.env (Fixture.good_create (Some Fixture.nonce32))
      (λ _, Response (StatusCodes.Bad "BadIdentityTokenRejected")
              (ActivateSessionResponse.mk None))
      (Response StatusCodes.Good ()) (λ _, None) in
  let st := Fixture.two_clients (Fixture.resolved_client []) in
  let created := createSession rejecting 1 None st in
  created.2
  = Callback (Some (ActivationRejected (StatusCodes.Bad "BadIdentityTokenRejected")))
      (Some 1)
  ∧ collection 1 created.1 = [1]
  ∧ collection 1 (closeSession rejecting 1 1 created.1).1 = collection 1 st.
Proof.
  intros rejecting st created.
  split; [by vm_compute|]. split; [by vm_compute|].
  refine (proj1 (createSession_then_closeSession rejecting 1 None st
                   (Fixture.resolved_client []) created.1
                   (Some (ActivationRejected (StatusCodes.Bad "BadIdentityTokenRejected")))
                   1 eq_refl _ _)).
  - intros x Hx. by apply elem_of_nil in Hx.
  - by vm_compute.
Defined.

(** ** Token policies *)

(** The head of a filtered list is the first element that passes. *)
Lemma filter_head {A} (P : A → bool) (l : list A) :
  match List.filter P l with
  | [] => ∀ x, x ∈ l → P x = false
  | x :: _ =>
      ∃ before after,
        l = before ++ x :: after ∧ P x = true ∧ ∀ y, y ∈ before → P y = false
  end.
Proof.
  induction l as [|a l IH]; cbn [List.filter].
  { intros x Hx. by apply elem_of_nil in Hx. }
  destruct (P a) eqn:Ha.
  - exists [], l. repeat split; [done|]. intros y Hy. by apply elem_of_nil in Hy.
  - destruct (List.filter P l) as [|x rest].
    + intros y [->|Hy]%elem_of_cons; [done|by apply IH].
    + destruct IH as (before & after & -> & Hx & Hbefore).
      exists (a :: before), after. repeat split; [done|].
      intros y [->|Hy]%elem_of_cons; [done|by apply Hbefore].
Qed.

Lemma findUserTokenPolicy_Some endpoint_description userTokenType policy :
  findUserTokenPolicy endpoint_description userTokenType = Some policy →
  policy ∈ EndpointDescription.userIdentityTokens endpoint_description
  ∧ UserTokenPolicy.tokenType policy = userTokenType.
Proof.
  unfold findUserTokenPolicy.
  pose proof (filter_head
    (λ userIdentity, bool_decide (UserTokenPolicy.tokenType userIdentity = userTokenType))
    (EndpointDescription.userIdentityTokens endpoint_description)) as H.
  destruct (List.filter _ _) as [|x rest]; [done|].
  intros [= <-]. destruct H as (before & after & -> & Hx & _).
  split; [|by apply bool_decide_eq_true in Hx].
  apply elem_of_app. right. by left.
Qed.

(** X10. [findUserTokenPolicy] gives the first token policy of the
    endpoint that has the requested token type, in the order in which the
    endpoint lists them, and nothing exactly when the endpoint lists no
    policy of that type. *)
Theorem findUserTokenPolicy_first endpoint_description userTokenType :
  let policies := EndpointDescription.userIdentityTokens endpoint_description in
  match findUserTokenPolicy endpoint_description userTokenType with
  | None =>
      ∀ policy, policy ∈ policies →
        UserTokenPolicy.tokenType policy ≠ userTokenType
  | Some policy =>
      UserTokenPolicy.tokenType policy = userTokenType
      ∧ ∃ before after,
          policies = before ++ policy :: after
          ∧ ∀ earlier, earlier ∈ before →
              UserTokenPolicy.tokenType earlier ≠ userTokenType
  end.
Proof.
  intros policies. subst policies. unfold findUserTokenPolicy.
  pose proof (filter_head
    (λ userIdentity, bool_decide (UserTokenPolicy.tokenType userIdentity = userTokenType))
    (EndpointDescription.userIdentityTokens endpoint_description)) as H.
  destruct (List.filter _ _) as [|x rest].
  - intros policy Hin. specialize (H policy Hin).
    by apply bool_decide_eq_false in H.
  - destruct H as (before & after & Heq & Hx & Hbefore).
    split; [by apply bool_decide_eq_true in Hx|].
    exists before, after. split; [done|].
    intros earlier Hin. specialize (Hbefore earlier Hin).
    by apply bool_decide_eq_false in Hbefore.
Qed.

(** What a successful UserNamePassword derivation went through. *)
Lemma createUserNameIdentityToken_inv env st session userName password token :
  createUserNameIdentityToken env st session userName password = inr token →
  ∃ client endpoint policy effective cryptoFactory serverCertificate publicKey
    serverNonce bytes block,
    clients st !! ClientSession._client session = Some client
    ∧ OPCUAClient.endpoint client = Some endpoint
    ∧ findUserTokenPolicy endpoint UserIdentityTokenType.USERNAME = Some policy
    ∧ (let own := fromURI env (UserTokenPolicy.securityPolicyUri policy) in
       if bool_decide (own = SecurityPolicy.Invalid)
       then SecureChannel.securityPolicy (OPCUAClient._secureChannel client)
            = Some effective
       else effective = own)
    ∧ getCryptoFactory env effective = Some cryptoFactory
    ∧ ClientSession.serverCertificate session = Some serverCertificate
    ∧ extractPublicKeyFromCertificateSync env serverCertificate = inr publicKey
    ∧ ClientSession.serverNonce session = Some serverNonce
    ∧ new_Buffer_utf8 password = inr bytes
    ∧ password_block bytes serverNonce = inr block
    ∧ token
      = UserNameIdentityToken userName
          (CryptoFactory.asymmetricEncrypt cryptoFactory block publicKey)
          (CryptoFactory.asymmetricEncryptionAlgorithm cryptoFactory)
          (UserTokenPolicy.policyId policy).
Proof.
  unfold createUserNameIdentityToken, session_client. intros H.
  destruct (assert (null_or_string userName) _); cbn [mbind throw_bind] in H; [done|].
  destruct (assert (null_or_string password) _); cbn [mbind throw_bind] in H; [done|].
  destruct (clients st !! ClientSession._client session) as [client|] eqn:Hc;
    cbn [mbind throw_bind] in H; [|done].
  destruct (OPCUAClient.endpoint client) as [endpoint|] eqn:He;
    cbn [assert_some mbind throw_bind] in H; [|done].
  destruct (findUserTokenPolicy endpoint _) as [policy|] eqn:Hfind;
    cbn [mbind throw_bind] in H; [|done].
  exists client, endpoint, policy.
  destruct (if bool_decide (fromURI env _ = SecurityPolicy.Invalid) then _ else _)
    as [e|effective] eqn:Heff; cbn [mbind throw_bind] in H; [done|].
  destruct (ClientSession.serverCertificate session) as [serverCertificate|]
    eqn:Hcert; cbn [assert_some mbind throw_bind] in H; [|done].
  destruct (extractPublicKeyFromCertificateSync env serverCertificate)
    as [e|publicKey] eqn:Hkey; cbn [mbind throw_bind] in H; [done|].
  destruct (ClientSession.serverNonce session) as [serverNonce|] eqn:Hnonce;
    cbn [assert_some mbind throw_bind] in H; [|done].
  destruct (getCryptoFactory env effective) as [cryptoFactory|] eqn:Hcf;
    cbn [mbind throw_bind] in H; [|done].
  destruct (new_Buffer_utf8 password) as [e|bytes] eqn:Hbytes;
    cbn [mbind throw_bind] in H; [done|].
  destruct (password_block bytes serverNonce) as [e|block] eqn:Hblock;
    cbn [mbind throw_bind mret throw_ret] in H; [done|].
  injection H as <-.
  exists effective, cryptoFactory, serverCertificate, publicKey, serverNonce,
    bytes, block.
  repeat split; try done.
  cbn zeta.
  destruct (bool_decide (fromURI env _ = SecurityPolicy.Invalid)).
  - destruct (SecureChannel.securityPolicy _); cbn in Heff; congruence.
  - congruence.
Qed.

(** X11. Every identity token that [createUserIdentityToken] derives
    carries the policy id of a token policy that the endpoint of the
    client the session is attached to advertises for the token's type:
    Anonymous for the anonymous token, UserName for the user-name token. *)
Theorem createUserIdentityToken_policy env st this session token :
  createUserIdentityToken env st this session = inr token →
  ∃ client endpoint policy,
    clients st !! ClientSession._client session = Some client
    ∧ OPCUAClient.endpoint client = Some endpoint
    ∧ policy ∈ EndpointDescription.userIdentityTokens endpoint
    ∧ UserTokenPolicy.tokenType policy = token_type token
    ∧ UserTokenPolicy.policyId policy = token_policyId token.
Proof.
  unfold createUserIdentityToken.
  destruct (isAnonymous _).
  - unfold createAnonymousIdentityToken, session_client.
    destruct (clients st !! ClientSession._client session) as [client|] eqn:Hc;
      cbn [mbind throw_bind]; [|done].
    destruct (OPCUAClient.endpoint client) as [endpoint|] eqn:He;
      cbn [assert_some mbind throw_bind]; [|done].
    destruct (findUserTokenPolicy endpoint _) as [policy|] eqn:Hfind; [|done].
    intros [= <-]. apply findUserTokenPolicy_Some in Hfind as [Hin Htype].
    by exists client, endpoint, policy.
  - destruct (OPCUAClient.userIdentityInfo this) as [info|]; [|done].
    destruct (isUserNamePassword info); [|done].
    intros (client & endpoint & policy & effective & cf & cert & key & nonce
            & bytes & block & Hc & He & Hfind & _ & _ & _ & _ & _ & _ & _ & ->)
           %createUserNameIdentityToken_inv.
    apply findUserTokenPolicy_Some in Hfind as [Hin Htype].
    by exists client, endpoint, policy.
Qed.

(** JoeDoe on the endpoint of the examples. *)
Lemma createUserIdentityToken_policy_witness :
  let joe := Some (UserIdentityInfo.mk (JsString "JoeDoe") (JsString "secret")) in
  ∃ token,
    createUserIdentityToken Fixture.quiet (Fixture.identity_store joe)
      (Fixture.identity_client joe) (Fixture.session 0 "Session1") = inr token
    ∧ token_policyId token = "username_basic128"
    ∧ ∃ policy,
        policy ∈ EndpointDescription.userIdentityTokens (Fixture.endpoint_at Fixture.url)
        ∧ UserTokenPolicy.policyId policy = token_policyId token.
Proof.
  intros joe.
  destruct (createUserIdentityToken Fixture.quiet (Fixture.identity_store joe)
              (Fixture.identity_client joe) (Fixture.session 0 "Session1"))
    as [err|token] eqn:H; [by vm_compute in H|].
  exists token. split; [done|].
  destruct (createUserIdentityToken_policy _ _ _ _ _ H)
    as (client & endpoint & policy & Hc & He & Hin & _ & Hid).
  injection Hc as <-. injection He as <-.
  split; [|by exists policy].
  vm_compute in H. by injection H as <-.
Defined.



(** ** The endpoint a client resolves *)

Lemma findEndpointForSecurity_Some env this mode policy endpoint :
  findEndpointForSecurity env this mode policy = Some endpoint →
  endpoint ∈ OPCUAClient._server_endpoints this
  ∧ EndpointDescription.securityMode endpoint = mode
  ∧ EndpointDescription.securityPolicyUri endpoint = SecurityPolicy_value env policy.
Proof.
  unfold findEndpointForSecurity, matches_security. intros H.
  pose proof (find_some _ _ H) as [Hin Hb].
  apply list_elem_of_In in Hin.
  rewrite !andb_true_iff, !bool_decide_eq_true in Hb.
  by destruct Hb.
Qed.

(** X13. [__resolveEndPoint] answers true exactly when it leaves an
    endpoint on the client; it leaves the security policy set ([None] when
    the client had none); and the endpoint it leaves is one of those the
    client knows of the server, with the security mode and the security
    policy of the client, and, when the client is strict, with the URL of
    the channel. *)
Theorem __resolveEndPoint_result env this :
  let done := __resolveEndPoint env this in
  let policy := default SecurityPolicy.None (OPCUAClient.securityPolicy this) in
  done.1 = present (OPCUAClient.endpoint done.2)
  ∧ OPCUAClient.securityPolicy done.2 = Some policy
  ∧ ∀ endpoint,
      OPCUAClient.endpoint done.2 = Some endpoint →
      endpoint ∈ OPCUAClient._server_endpoints this
      ∧ EndpointDescription.securityMode endpoint = OPCUAClient.securityMode this
      ∧ EndpointDescription.securityPolicyUri endpoint
        = SecurityPolicy_value env policy
      ∧ (truthy (OPCUAClient.endpoint_must_exist this) = true →
         EndpointDescription.endpointUrl endpoint
         = SecureChannel.endpoint_url (OPCUAClient._secureChannel this)).
Proof.
  intros done policy. subst done.
  assert (Hpolicy : OPCUAClient.securityPolicy (__resolveEndPoint env this).2
                    = Some policy).
  { unfold __resolveEndPoint. cbn zeta.
    destruct (OPCUAClient.endpoint _); [done|].
    destruct (truthy _); [done|].
    by destruct (findEndpointForSecurity _ _ _ _). }
  destruct (truthy (OPCUAClient.endpoint_must_exist this)) eqn:Hstrict.
  - destruct (__resolveEndPoint_strict env this Hstrict) as [H1 H2].
    rewrite H1, H2. split; [done|]. split; [done|].
    intros endpoint (Hin & Hurl & Hmode & Huri)%findEndpoint_Some. done.
  - destruct (__resolveEndPoint_relaxed env this Hstrict) as [H1 H2].
    rewrite H1, H2. fold policy.
    destruct (findEndpoint env this _ _ policy) as [e|] eqn:Hfound.
    + split.
      { destruct (findEndpointForSecurity env this _ policy) eqn:Hfb; [done|].
        by rewrite (findEndpoint_findEndpointForSecurity _ _ _ _ _ Hfb) in Hfound. }
      split; [done|]. intros endpoint [= <-].
      apply findEndpoint_Some in Hfound as (Hin & Hurl & Hmode & Huri). done.
    + split; [done|]. split; [done|].
      intros endpoint (Hin & Hmode & Huri)%findEndpointForSecurity_Some. done.
Qed.

(** X14. Resolving the endpoint a second time changes nothing: the
    answer and the client are those of the first resolution. *)
Theorem __resolveEndPoint_idempotent env this :
  __resolveEndPoint env (__resolveEndPoint env this).2 = __resolveEndPoint env this.
Proof.
  destruct this as [eme rst an cnt mode policy ep epu su eu cn info ch eps ss].
  unfold __resolveEndPoint, findEndpoint, findEndpointForSecurity.
  cbn -[List.find matches_security truthy].
  destruct (find
              (λ endpoint0,
                 bool_decide (EndpointDescription.endpointUrl endpoint0
                              = SecureChannel.endpoint_url ch)
                 && matches_security env mode
                      (default SecurityPolicy.None policy) endpoint0)
              eps) eqn:Hexact.
  { cbn -[List.find matches_security truthy]. by rewrite Hexact. }
  destruct (truthy eme) eqn:Hstrict.
  { cbn -[List.find matches_security truthy]. by rewrite Hexact, Hstrict. }
  destruct (find (matches_security env mode (default SecurityPolicy.None policy)) eps)
    eqn:Hfb;
    cbn -[List.find matches_security truthy]; by rewrite Hexact, Hstrict, Hfb.
Qed.

(** ** What a reconnection leaves alone *)

Lemma framed_step st arr r r' x :
  framed st arr r → x ∈ arr →
  clients (Recovery.store r') = clients (Recovery.store r) →
  (∀ j, j ≠ x →
     sessions (Recovery.store r') !! j = sessions (Recovery.store r) !! j) →
  (republish_log (Recovery.store r') = republish_log (Recovery.store r)
   ∨ republish_log (Recovery.store r')
     = republish_log (Recovery.store r) ++ [x]) →
  framed st arr r'.
Proof.
  intros (Hc & Hs & extra & Hl & Hextra) Hx Hc' Hs' Hl'.
  split; [congruence|]. split.
  - intros j Hj. rewrite Hs', Hs; [done..|]. by intros ->.
  - destruct Hl' as [Hl'|Hl']; rewrite Hl', Hl.
    + by exists extra.
    + exists (extra ++ [x]). split; [by rewrite app_assoc|].
      intros y [Hy|Hy]%elem_of_app; [by apply Hextra|].
      by apply list_elem_of_singleton in Hy as ->.
Qed.

Lemma async_next_store n x err r :
  Recovery.store (async_next n x err r) = Recovery.store r.
Proof. by destruct err. Qed.

Lemma activated_store env n i x st' answer r :
  let r' := activated env n i x (st', answer) r in
  clients (Recovery.store r') = clients st'
  ∧ sessions (Recovery.store r') = sessions st'
  ∧ (republish_log (Recovery.store r') = republish_log st'
     ∨ republish_log (Recovery.store r') = republish_log st' ++ [x]).
Proof.
  destruct answer as [[err|] result|err]; cbn; auto.
Qed.

Lemma advance_framed env self st arr i r :
  framed st arr r → framed st arr (advance env self arr i r).
Proof.
  intros F. unfold advance.
  destruct (Recovery.thrown r); [done|].
  destruct (arr !! i) as [x|] eqn:Hi; [|done].
  assert (Hx : x ∈ arr) by by eapply list_elem_of_lookup_2.
  destruct (Recovery.iterations r !! i) as [[|pending|answer|]|]; try done.
  - pose proof (_activateSession_request_only_session env self x
                  (Recovery.store r)) as (Fc & Fl & Fs).
    destruct (_activateSession_request env self x (Recovery.store r))
      as [st' [answer|pending]]; cbn [fst] in *.
    + destruct (activated_store env (length arr) i x st' answer r)
        as (Ac & As & Al).
      apply (framed_step st arr r _ x); [done..|congruence| |].
      * intros j Hj. by rewrite As, Fs.
      * rewrite <- Fl. done.
    + apply (framed_step st arr r _ x); [done..|cbn; auto].
  - cbn zeta.
    pose proof (_activateSession_response_only_session x pending
                  (activateSession_transaction env x
                     (PendingActivation.request pending))
                  (Recovery.store r)) as (Fc & Fl & Fs).
    destruct (_activateSession_response x pending _ (Recovery.store r))
      as [st' answer]; cbn [fst] in *.
    destruct (activated_store env (length arr) i x st' answer r)
      as (Ac & As & Al).
    apply (framed_step st arr r _ x); [done..|congruence| |].
    + intros j Hj. by rewrite As, Fs.
    + rewrite <- Fl. done.
  - destruct answer as [err result|err];
      apply (framed_step st arr r _ x);
      rewrite ?async_next_store; cbn; auto.
Qed.

Lemma async_map_framed env self st arr order :
  framed st arr (async_map env self arr order st).
Proof.
  unfold async_map. cbn zeta.
  generalize (seq 0 (length arr) ++ order
              ++ seq 0 (length arr) ++ seq 0 (length arr)).
  assert (F : framed st arr
    (Recovery.mk st (replicate (length arr) NotStarted) [] 0
       (if length arr =? 0 then Some None else None) None)).
  { split; [done|]. split; [done|]. exists []. split; [by rewrite app_nil_r|].
    by intros x ?%elem_of_nil. }
  revert F. generalize (Recovery.mk st (replicate (length arr) NotStarted) [] 0
       (if length arr =? 0 then Some None else None) None).
  intros r F l. revert r F.
  induction l as [|i l IH]; intros r F; [done|].
  cbn [foldl]. apply IH. by apply advance_framed.
Qed.

Lemma async_map_nil env self order st :
  Recovery.store (async_map env self [] order st) = st.
Proof.
  assert (Hidle : ∀ i r, advance env self [] i r = r).
  { intros i r. unfold advance. by destruct (Recovery.thrown r). }
  assert (H : ∀ l r, foldl (λ r i, advance env self [] i r) r l = r).
  { induction l as [|i l IH]; intros r; [done|].
    cbn [foldl]. by rewrite Hidle. }
  unfold async_map. cbn zeta. by rewrite H.
Qed.

(** X15. A reconnection works on the sessions of the client's collection
    and on nothing else: no client changes (so no collection, identity or
    endpoint), every session outside the collection is as it was, the
    republish requests made earlier stand, and the new ones are for
    sessions of the collection. With an empty collection nothing changes
    at all. *)
Theorem _on_connection_reestablished_frame env self order st :
  let done := _on_connection_reestablished env self order st in
  clients done.1 = clients st
  ∧ (∀ j, j ∉ collection self st → sessions done.1 !! j = sessions st !! j)
  ∧ (∃ extra,
       republish_log done.1 = republish_log st ++ extra
       ∧ ∀ x, x ∈ extra → x ∈ collection self st)
  ∧ (collection self st = [] → done.1 = st).
Proof.
  intros done. subst done. unfold _on_connection_reestablished, collection.
  destruct (clients st !! self) as [this|]; cbn [from_option fst].
  - destruct (async_map_framed env self st (OPCUAClient._sessions this) order)
      as (Hc & Hs & Hl).
    split; [done|]. split; [done|]. split; [done|].
    intros ->. by rewrite async_map_nil.
  - split; [done|]. split; [done|]. split; [|done].
    exists []. split; [by rewrite app_nil_r|done].
Qed.

(** ** After a successful reactivation *)

(** X16. After a reactivation that succeeds, the owning-client reference
    and the collections agree: the session is attached to the target
    client and holds a valid server nonce, and, when it came from another
    client, it is in the collection of the target and no longer in the
    collection of that client. *)
Theorem reactivateSession_success env self session st this old s st' result :
  clients st !! self = Some this →
  sessions st !! session = Some s →
  clients st !! ClientSession._client s = Some old →
  reactivateSession env self session st = (st', Callback None result) →
  owner session st' = Some self
  ∧ (∃ s', sessions st' !! session = Some s'
           ∧ validateServerNonce (ClientSession.serverNonce s') = true)
  ∧ (ClientSession._client s ≠ self →
     session ∈ collection self st'
     ∧ session ∉ collection (ClientSession._client s) st').
Proof.
  intros Hself Hsession Hold Hdone.
  destruct (__resolveEndPoint env this).1 eqn:Hres; cycle 1.
  { by rewrite (reactivateSession_unresolved env self session st this s
                  Hself Hsession Hres) in Hdone. }
  destruct (decide (OPCUAClient.endpointUrl old = OPCUAClient.endpointUrl this))
    as [Heq|Hne]; cycle 1.
  { by rewrite (reactivateSession_different_endpoint env self session st this old s
                  Hself Hsession Hold Hres Hne) in Hdone. }
  rewrite (reactivateSession_same_endpoint env self session st this old s
             Hself Hsession Hold Hres Heq) in Hdone.
  set (st1 := set_client self (__resolveEndPoint env this).2 st) in *.
  assert (Hself1 : clients st1 !! self = Some (__resolveEndPoint env this).2).
  { unfold st1. cbn. apply list_lookup_insert_eq. by eapply lookup_lt_Some. }
  assert (Hlen1 : length (clients st1) = length (clients st)).
  { unfold st1. cbn. apply length_insert. }
  destruct (_activateSession_cases env self session st1 _ s Hself1 Hsession)
    as [[e He]|[nonce Hgood]]; [by rewrite He in Hdone|].
  rewrite Hgood in Hdone.
  destruct (validateServerNonce nonce) eqn:Hvalid; [|done].
  set (s' := ClientSession.set_serverNonce nonce (ClientSession.set__client self s)) in *.
  set (st2 := set_session session s' st1) in *.
  assert (Hs2 : sessions st2 !! session = Some s').
  { unfold st2. by apply set_session_lookup with s. }
  case_bool_decide as Hown; injection Hdone as <- _.
  - split; [by unfold owner; rewrite Hs2|]. split; [by exists s'|done].
  - unfold owner, _addSession, _removeSession.
    rewrite !sessions_set_sessions_of, Hs2.
    split; [done|]. split; [by exists s'|]. intros _.
    rewrite !collection_set_sessions_of, !length_clients_set_sessions_of.
    change (length (clients st2)) with (length (clients st1)). rewrite Hlen1.
    apply lookup_lt_Some in Hself, Hold.
    rewrite (bool_decide_eq_true_2 (self = self ∧ _)) by done.
    rewrite (bool_decide_eq_false_2 (self = ClientSession._client s ∧ _))
      by (intros [? _]; done).
    rewrite (bool_decide_eq_false_2 (ClientSession._client s = self ∧ _))
      by (intros [? _]; done).
    rewrite (bool_decide_eq_true_2 (ClientSession._client s = ClientSession._client s ∧ _))
      by done.
    split; [apply with_session_elem | apply without_not_elem].
Qed.

(** Client 1 takes over session 0 of client 0. *)
Lemma reactivateSession_success_witness :
  let st := Fixture.two_clients (Fixture.resolved_client []) in
  let done := reactivateSession Fixture.quiet 1 0 st in
  done.2 = Callback None None
  ∧ owner 0 st = Some 0 ∧ owner 0 done.1 = Some 1
  ∧ (0 ∈ collection 1 done.1) ∧ (0 ∉ collection 0 done.1).
Proof.
  intros st done.
  destruct (reactivateSession_success Fixture.quiet 1 0 st
              (Fixture.resolved_client []) (Fixture.resolved_client [0])
              (Fixture.session 0 "Session1") done.1 None eq_refl eq_refl eq_refl)
    as (Howner & _ & Hmove); [by vm_compute|].
  destruct Hmove as [Hin Hout]; [done|].
  split; [by vm_compute|]. split; [done|]. split; [exact Howner|].
  split; [exact Hin|exact Hout].
Defined.

(** ** What a creation leaves on the client *)

Lemma __resolveEndPoint_counter env this :
  OPCUAClient.___sessionName_counter (__resolveEndPoint env this).2
  = OPCUAClient.___sessionName_counter this.
Proof.
  unfold __resolveEndPoint. cbn zeta.
  destruct (OPCUAClient.endpoint _); [done|].
  destruct (truthy _); [done|].
  by destruct (findEndpointForSecurity _ _ _ _).
Qed.

(** X17. A [_createSession] that succeeds has sent a request that names
    the session ["Session"] followed by the count the client has reached,
    carries the URL of the client's channel as endpoint URL and 32 fresh
    random bytes as client nonce, and the server has answered it [Good].
    The new session is the next object of the store; it belongs to the
    client, has the name of the request and holds the identifier, the
    authentication token, the revised timeout, the nonce, the certificate,
    the signature and the endpoints of that response. The endpoints the
    client knows of the server are afterwards those of the response, and the
    client remembers the count, the URL and the nonce. The count is within
    the integers a JavaScript number holds exactly. *)
Theorem _createSession_success env self st this st' session :
  clients st !! self = Some this →
  (default 0 (OPCUAClient.___sessionName_counter this) + 1 ≤ 2 ^ 53)%N →
  _createSession env self st = (st', Callback None (Some session)) →
  ∃ this' request response,
    createSession_transaction env request = Response StatusCodes.Good response
    ∧ CreateSessionRequest.sessionName request
      = "Session"
        +:+ pretty (default 0 (OPCUAClient.___sessionName_counter this) + 1)%N
    ∧ CreateSessionRequest.endpointUrl request
      = SecureChannel.endpoint_url (OPCUAClient._secureChannel this)
    ∧ CreateSessionRequest.clientNonce request = randomBytes env 32
    ∧ session = length (sessions st)
    ∧ sessions st'
      = sessions st
        ++ [ {| ClientSession._client := self;
                ClientSession.name := CreateSessionRequest.sessionName request;
                ClientSession.sessionId :=
                  CreateSessionResponse.sessionId response;
                ClientSession.authenticationToken :=
                  CreateSessionResponse.authenticationToken response;
                ClientSession.timeout :=
                  CreateSessionResponse.revisedSessionTimeout response;
                ClientSession.serverNonce :=
                  CreateSessionResponse.serverNonce response;
                ClientSession.serverCertificate :=
                  CreateSessionResponse.serverCertificate response;
                ClientSession.serverSignature :=
                  CreateSessionResponse.serverSignature response;
                ClientSession.serverEndpoints :=
                  CreateSessionResponse.serverEndpoints response |} ]
    ∧ clients st' !! self = Some this'
    ∧ OPCUAClient._server_endpoints this'
      = CreateSessionResponse.serverEndpoints response
    ∧ OPCUAClient.___sessionName_counter this'
      = Some (default 0 (OPCUAClient.___sessionName_counter this) + 1)%N
    ∧ OPCUAClient.endpoint_url this'
      = Some (SecureChannel.endpoint_url (OPCUAClient._secureChannel this))
    ∧ OPCUAClient.clientNonce this' = Some (randomBytes env 32).
Proof.
  intros Hself _. unfold _createSession. rewrite Hself.
  apply lookup_lt_Some in Hself as Hlt.
  pose proof (__resolveEndPoint_counter env this) as Hcount.
  destruct (__resolveEndPoint env this) as [b this1]. cbn [snd] in Hcount.
  destruct (if b then OPCUAClient.endpoint this1 else None); [|done].
  cbn zeta.
  destruct (String.eqb _ ""); [done|].
  destruct (String.eqb _ ""); [done|].
  cbn [_nextSessionName].
  destruct (createSession_transaction env _) as [err|serviceResult response]
    eqn:Hreply; [done|].
  case_bool_decide; [done|].
  case_bool_decide as Hgood; [|done]. subst serviceResult.
  cbn [negb validateServerNonce CreateSessionRequest.serverNonce present andb
       new_session fst snd set_client clients sessions republish_log].
  intros [= <- <-].
  eexists _, _, response. split; [exact Hreply|].
  split; [|split; [done|split; [done|split; [done|split; [done|split]]]]].
  - cbn. rewrite Hcount.
    by destruct (OPCUAClient.___sessionName_counter this).
  - cbn [clients set_client]. apply list_lookup_insert_eq.
    by rewrite length_insert.
  - cbn. rewrite Hcount.
    split; [done|]. split; [|done].
    by destruct (OPCUAClient.___sessionName_counter this).
Qed.

(** A strict client that knows one endpoint of the server, at the URL of
    its channel, creates its first session; the response lists two
    endpoints. *)
Lemma _createSession_success_witness :
  let listed :=
    [Fixture.endpoint_at Fixture.other_url; Fixture.endpoint_at Fixture.url] in
  let env :=
    Fixture.env
      (Response StatusCodes.Good
         (CreateSessionResponse.mk "ns=1;i=21" "ns=1;i=22" 30000
            (Some Fixture.nonce32) (Some Fixture.certificate) None listed))
      (λ _, Fixture.good_activate (Some Fixture.nonce32))
      (Response StatusCodes.Good ()) (λ _, None) in
  let this := Fixture.client Fixture.strict [Fixture.endpoint_at Fixture.url] in
  let st := mkState [this] [] [] in
  let done := _createSession env 0 st in
  done.2 = Callback None (Some 0)
  ∧ OPCUAClient._server_endpoints this = [Fixture.endpoint_at Fixture.url]
  ∧ (OPCUAClient._server_endpoints <$> clients done.1 !! 0 = Some listed)
  ∧ (ClientSession.serverEndpoints <$> sessions done.1 !! 0 = Some listed)
  ∧ (ClientSession.name <$> sessions done.1 !! 0 = Some "Session1")
  ∧ (ClientSession.sessionId <$> sessions done.1 !! 0 = Some "ns=1;i=21").
Proof.
  intros listed env this st done.
  destruct (_createSession_success env 0 st this done.1 0)
    as (this' & request & response & Hreply & Hname & _ & _ & _ & Hs & Hthis'
        & Heps & _); [done|by vm_compute|by vm_compute|].
  injection Hreply as <-.
  split; [by vm_compute|]. split; [done|]. split.
  { rewrite Hthis'. cbn [fmap option_fmap option_map]. by rewrite Heps. }
  rewrite Hs, Hname. by vm_compute.
Defined.

(** ** A creation that finds no endpoint *)

(** X18. A strict client that knows no endpoint of the server for the URL
    of its channel with its security mode and policy fails to create a
    session with the end-point error naming that URL; no session is made
    and no session name is used up. *)
Theorem _createSession_no_endpoint env self st this :
  clients st !! self = Some this →
  truthy (OPCUAClient.endpoint_must_exist this) = true →
  findEndpoint env this
    (SecureChannel.endpoint_url (OPCUAClient._secureChannel this))
    (OPCUAClient.securityMode this)
    (default SecurityPolicy.None (OPCUAClient.securityPolicy this)) = None →
  let done := _createSession env self st in
  done.2
  = Callback
      (Some (EndPointMustExist
               (SecureChannel.endpoint_url (OPCUAClient._secureChannel this))))
      None
  ∧ sessions done.1 = sessions st
  ∧ OPCUAClient.___sessionName_counter <$> clients done.1 !! self
    = Some (OPCUAClient.___sessionName_counter this).
Proof.
  intros Hself Hstrict Hnone done. subst done.
  destruct (__resolveEndPoint_strict env this Hstrict) as [H1 H2].
  rewrite Hnone in H1, H2. cbn [present] in H1.
  pose proof (__resolveEndPoint_counter env this) as Hcount.
  unfold _createSession. rewrite Hself.
  destruct (__resolveEndPoint env this) as [b this1]. cbn [fst snd] in *. subst b.
  cbn [fst snd sessions clients set_client]. split; [done|]. split; [done|].
  rewrite list_lookup_insert_eq by by eapply lookup_lt_Some.
  cbn. by rewrite Hcount.
Qed.

(** A strict client reached under another URL than the one the server
    publishes. *)
Lemma _createSession_no_endpoint_witness :
  let this := Fixture.client Fixture.strict [Fixture.endpoint_at Fixture.other_url] in
  let st := mkState [this] [] [] in
  let done := _createSession Fixture.quiet 0 st in
  done.2 = Callback (Some (EndPointMustExist Fixture.url)) None
  ∧ sessions done.1 = []
  ∧ OPCUAClient.___sessionName_counter <$> clients done.1 !! 0 = Some None.
Proof.
  intros this st done.
  apply (_createSession_no_endpoint Fixture.quiet 0 st this); by vm_compute.
Defined.

(** ** A session the server turns down on reconnection *)

(** X19. On a reconnection, a session whose activation fails with another
    error than the invalid-nonce one (the server rejects it, the transport
    fails, no token can be derived) is afterwards exactly as it was before:
    its nonce, its certificate and its owner are untouched, whatever
    happened to the other sessions. *)
Theorem reconnection_failed_session_unchanged env self st this order session err :
  clients st !! self = Some this →
  NoDup (OPCUAClient._sessions this) →
  (∀ x, x ∈ OPCUAClient._sessions this → is_Some (sessions st !! x)) →
  session ∈ OPCUAClient._sessions this →
  activation_error env self session st = Some err →
  err ≠ InvalidServerNonce →
  sessions (_on_connection_reestablished env self order st).1 !! session
  = sessions st !! session.
Proof.
  intros Hself Hnd Hin Hsession Herr Hne.
  unfold _on_connection_reestablished. rewrite Hself. cbn zeta. cbn [fst].
  destruct (async_map_outcome env self st this (OPCUAClient._sessions this)
              Hself Hnd Hin order) as (_ & Hs & _).
  rewrite (Hs session Hsession).
  destruct (Hin session Hsession) as [s Hlookup].
  unfold activation_error in Herr.
  destruct (_activateSession_cases env self session st this s Hself Hlookup)
    as [[e He]|[nonce Hgood]]; [by rewrite He|].
  rewrite Hgood in Herr. cbn [snd] in Herr.
  destruct (validateServerNonce nonce); congruence.
Qed.

(** Three sessions, the second of which the server rejects. *)
Lemma reconnection_failed_session_unchanged_witness :
  let env :=
    Fixture.env (Fixture.good_create None)
      (λ session,
         if bool_decide (session = 1)
         then Response (StatusCodes.Bad "BadSessionIdInvalid")
                (ActivateSessionResponse.mk (Some Fixture.short_nonce))
         else Fixture.good_activate (Some (Fixture.nonce32 ++ Fixture.nonce32)))
      (Response StatusCodes.Good ()) (λ _, Some (ExternalError "republish failed")) in
  let this := Fixture.resolved_client [0; 1; 2] in
  let st :=
    mkState [this]
      [Fixture.session 0 "Session1"; Fixture.session 0 "Session2";
       Fixture.session 0 "Session3"] [] in
  let done := _on_connection_reestablished env 0 [0; 1; 2] st in
  sessions done.1 !! 1 = Some (Fixture.session 0 "Session2")
  ∧ ClientSession.serverNonce <$> sessions done.1 !! 0
    = Some (Some (Fixture.nonce32 ++ Fixture.nonce32))
  ∧ republish_log done.1 = [0; 2].
Proof.
  intros env this st done.
  split; [|by vm_compute].
  apply (reconnection_failed_session_unchanged env 0 st this [0; 1; 2] 1
           (ActivationRejected (StatusCodes.Bad "BadSessionIdInvalid"))).
  - reflexivity.
  - apply (bool_decide_unpack _). by vm_compute.
  - intros x Hx. change (x ∈ [0; 1; 2]) in Hx.
    repeat (apply elem_of_cons in Hx as [->|Hx]); [by eexists..|].
    by apply elem_of_nil in Hx.
  - right. by left.
  - by vm_compute.
  - done.
Defined.
